(** * runshell / examples/scripts/rootDir/process.py

    A shallow embedding of the record pipeline of [process.py]
    (read CSV or JSON, apply [filter_empty] / [add_timestamp], write CSV or
    JSON) together with the properties its specification states.

    Layout: the data model and the Python runtime pieces the script calls
    ([dict], [csv], [json], [os.path], [datetime]) come first, then the
    functions of the script under their own names, then the lemmas. *)

From Stdlib Require Import List String Ascii ZArith NArith Bool Lia.
From Stdlib Require Import Permutation.
From Stdlib Require Import DecimalString DecimalN.
From Stdlib Require Import Floats.SpecFloat.
Import ListNotations.
Open Scope string_scope.

(* ================================================================== *)
(** ** Characters used by the codecs *)

Definition LF : ascii := ascii_of_nat 10.
Definition CR : ascii := ascii_of_nat 13.
Definition DQUOTE : ascii := ascii_of_nat 34.
Definition COMMA : ascii := ascii_of_nat 44.
Definition BACKSLASH : ascii := ascii_of_nat 92.

(** One-character string. *)
Definition chr (c : ascii) : string := String c EmptyString.

(* ================================================================== *)
(** ** Python values

    A Python [str] is a [string] whose characters are code points below 256.
    A dict is an association list in insertion order (the order that
    [dict.keys()] and [dict.items()] iterate in); a well-formed dict has no
    repeated key. The key [KNone] is Python's [None], which [csv.DictReader]
    uses for the cells of a row that is longer than the header. *)

Module Py.

Inductive key : Type :=
| KNone
| KStr (s : string).

#[local] Unset Elimination Schemes.
Inductive value : Type :=
| VNone
| VBool (b : bool)
| VInt (z : Z)
| VFloat (f : spec_float)
| VStr (s : string)
| VList (l : list value)
| VDict (d : list (key * value)).
#[local] Set Elimination Schemes.

Definition dict := list (key * value).

Definition key_eqb (a b : key) : bool :=
  match a, b with
  | KNone, KNone => true
  | KStr x, KStr y => String.eqb x y
  | _, _ => false
  end.

(** [bool(v)]: the truth value Python gives [v] in [if v]. *)
Definition truthy (v : value) : bool :=
  match v with
  | VNone => false
  | VBool b => b
  | VInt z => negb (Z.eqb z 0)
  | VFloat f => match f with S754_zero _ => false | _ => true end
  | VStr s => negb (String.eqb s "")
  | VList l => match l with [] => false | _ :: _ => true end
  | VDict d => match d with [] => false | _ :: _ => true end
  end.

Definition keys (d : dict) : list key := map fst d.

(** [d.get(k)]: [None] when the key is absent. *)
Fixpoint dict_get (k : key) (d : dict) : option value :=
  match d with
  | [] => None
  | (k', v) :: d' => if key_eqb k k' then Some v else dict_get k d'
  end.

(** [d[k] = v]: an existing key keeps its position, a new key goes last. *)
Fixpoint dict_set (k : key) (v : value) (d : dict) : dict :=
  match d with
  | [] => [(k, v)]
  | (k', v') :: d' =>
      if key_eqb k k' then (k', v) :: d' else (k', v') :: dict_set k v d'
  end.

(** [dict(pairs)]: insertion of the pairs from left to right. *)
Definition dict_of (kvs : list (key * value)) : dict :=
  fold_left (fun d kv => dict_set (fst kv) (snd kv) d) kvs [].

Definition dict_wf (d : dict) : Prop := NoDup (keys d).

(** [d1 == d2] on well-formed dicts: the same keys bound to the same values,
    whatever the insertion order. *)
Definition dict_eq (d1 d2 : dict) : Prop :=
  forall k, dict_get k d1 = dict_get k d2.

(** [x in xs] for a list of strings. *)
Definition str_in (x : string) (xs : list string) : bool :=
  existsb (String.eqb x) xs.

(** [zip(xs, ys)] stops at the shorter argument. *)
Fixpoint zip {A B} (xs : list A) (ys : list B) : list (A * B) :=
  match xs, ys with
  | x :: xs', y :: ys' => (x, y) :: zip xs' ys'
  | _, _ => []
  end.

(** [sep.join(parts)]. *)
Fixpoint join (sep : string) (parts : list string) : string :=
  match parts with
  | [] => ""
  | [p] => p
  | p :: ps => p ++ sep ++ join sep ps
  end.

(** [str(n)] for an int. *)
Definition str_of_int (z : Z) : string := NilZero.string_of_int (Z.to_int z).

(** ['%0<w>d' % n] for a non-negative [n]. *)
Fixpoint zeros (n : nat) : string :=
  match n with O => "" | S n' => String "0" (zeros n') end.

Definition zfill (w : nat) (n : N) : string :=
  let s := NilZero.string_of_uint (N.to_uint n) in
  zeros (w - String.length s) ++ s.

End Py.
Import Py.

(* ================================================================== *)
(** ** [datetime] *)

Module Datetime.

Record datetime : Type := mk_datetime {
  year : N; month : N; day : N;
  hour : N; minute : N; second : N; microsecond : N
}.

(** [datetime.isoformat()] of a naive datetime: [YYYY-MM-DDTHH:MM:SS], with
    [.ffffff] appended when the microsecond part is not zero. *)
Definition isoformat (t : datetime) : string :=
  zfill 4 (year t) ++ "-" ++ zfill 2 (month t) ++ "-" ++ zfill 2 (day t)
  ++ "T" ++ zfill 2 (hour t) ++ ":" ++ zfill 2 (minute t) ++ ":"
  ++ zfill 2 (second t)
  ++ (if N.eqb (microsecond t) 0 then "" else "." ++ zfill 6 (microsecond t)).

End Datetime.
Import Datetime.

(* ================================================================== *)
(** ** Results of fallible library calls *)

Inductive result (E A : Type) : Type :=
| Ok (a : A)
| Err (e : E).
Arguments Ok {E A} a.
Arguments Err {E A} e.

Definition rbind {E A B} (c : result E A) (k : A -> result E B) : result E B :=
  match c with
  | Ok a => k a
  | Err e => Err e
  end.

Definition rmap {E A B} (f : A -> B) (c : result E A) : result E B :=
  rbind c (fun a => Ok (f a)).

(* ================================================================== *)
(** ** Text files: [open(path, 'r')] and iteration over the file

    A file opened for reading without a [newline] argument is in universal
    newlines mode: each of CR LF, CR and LF reaches the program as LF.
    Iterating over the file yields its lines, each with its final LF. *)

Module TextIO.

Fixpoint universal_newlines (s : string) : string :=
  match s with
  | EmptyString => EmptyString
  | String c rest =>
      if Ascii.eqb c CR then
        match rest with
        | String c' rest' =>
            if Ascii.eqb c' LF then String LF (universal_newlines rest')
            else String LF (universal_newlines rest)
        | EmptyString => String LF EmptyString
        end
      else String c (universal_newlines rest)
  end.

Fixpoint readlines (s : string) : list string :=
  match s with
  | EmptyString => []
  | String c rest =>
      if Ascii.eqb c LF then chr c :: readlines rest
      else match readlines rest with
           | [] => [chr c]
           | l :: ls => String c l :: ls
           end
  end.

End TextIO.

(* ================================================================== *)
(** ** The [csv] module, dialect [excel]

    After CPython's [Modules/_csv.c] (writer and reader) and [Lib/csv.py]
    ([DictReader], [DictWriter]), with the arguments [process.py] passes.

    Delimiter comma, quote character the double quote, [doublequote] on,
    no escape character, [skipinitialspace] off, line terminator CR LF,
    [QUOTE_MINIMAL], not strict. *)

Module Csv.

Inductive Error : Type :=
| FieldTooLarge            (* field larger than field limit (131072) *)
| NewlineInUnquotedField.  (* new-line character seen in unquoted field *)

(** *** Writer *)

(** A field is quoted when it holds the delimiter, the quote character or a
    character of a line break. *)
Fixpoint needs_quote (s : string) : bool :=
  match s with
  | EmptyString => false
  | String c rest =>
      Ascii.eqb c COMMA || Ascii.eqb c DQUOTE || Ascii.eqb c LF
      || Ascii.eqb c CR || needs_quote rest
  end.

(** [doublequote]: a quote character inside a field is written twice. *)
Fixpoint double_quotes (s : string) : string :=
  match s with
  | EmptyString => EmptyString
  | String c rest =>
      if Ascii.eqb c DQUOTE then String DQUOTE (String DQUOTE (double_quotes rest))
      else String c (double_quotes rest)
  end.

Definition join_append (field : string) : string :=
  if needs_quote field
  then chr DQUOTE ++ double_quotes field ++ chr DQUOTE
  else field.

(** [writer.writerow(cells)]: the record, then the line terminator. A record
    that would be empty although it has a field (one empty field) is written
    as a pair of quotes. *)
Definition writerow (cells : list string) : string :=
  let rec_ := join (chr COMMA) (map join_append cells) in
  (if (0 <? List.length cells)%nat && String.eqb rec_ ""
   then chr DQUOTE ++ chr DQUOTE
   else rec_)
  ++ chr CR ++ chr LF.

(** *** Reader *)

Definition field_limit : N := 131072.

(** The parser states the [excel] dialect can reach (it has no escape
    character, which leaves the three escape states out). *)
Inductive ParserState : Type :=
| START_RECORD
| START_FIELD
| IN_FIELD
| IN_QUOTED_FIELD
| QUOTE_IN_QUOTED_FIELD
| EAT_CRNL.

Record ReaderObj : Type := mk_reader {
  state : ParserState;
  field : string;          (* characters of the field being read *)
  fields : list string     (* fields of the record being read *)
}.

Definition parse_reset : ReaderObj := mk_reader START_RECORD "" [].

Definition set_state (st : ParserState) (self : ReaderObj) : ReaderObj :=
  mk_reader st (field self) (fields self).

Definition parse_save_field (self : ReaderObj) : ReaderObj :=
  mk_reader (state self) "" (fields self ++ [field self]).

Definition parse_add_char (self : ReaderObj) (c : ascii)
  : result Error ReaderObj :=
  if (field_limit <=? N.of_nat (String.length (field self)))%N
  then Err FieldTooLarge
  else Ok (mk_reader (state self) (field self ++ chr c) (fields self)).

Definition is_newline (c : ascii) : bool := Ascii.eqb c LF || Ascii.eqb c CR.

(** The [START_FIELD] case, which [START_RECORD] falls through to on an
    ordinary character. The input [None] is the end-of-line mark the reader
    feeds after the last character of each line. *)
Definition start_field (self : ReaderObj) (c : option ascii)
  : result Error ReaderObj :=
  match c with
  | None => Ok (set_state START_RECORD (parse_save_field self))
  | Some c =>
      if is_newline c then Ok (set_state EAT_CRNL (parse_save_field self))
      else if Ascii.eqb c DQUOTE then Ok (set_state IN_QUOTED_FIELD self)
      else if Ascii.eqb c COMMA
           then Ok (set_state START_FIELD (parse_save_field self))
      else rmap (set_state IN_FIELD) (parse_add_char self c)
  end.

Definition parse_process_char (self : ReaderObj) (c : option ascii)
  : result Error ReaderObj :=
  match state self with
  | START_RECORD =>
      match c with
      | None => Ok self
      | Some ch =>
          if is_newline ch then Ok (set_state EAT_CRNL self)
          else start_field self c
      end
  | START_FIELD => start_field self c
  | IN_FIELD =>
      match c with
      | None => Ok (set_state START_RECORD (parse_save_field self))
      | Some ch =>
          if is_newline ch then Ok (set_state EAT_CRNL (parse_save_field self))
          else if Ascii.eqb ch COMMA
               then Ok (set_state START_FIELD (parse_save_field self))
          else parse_add_char self ch
      end
  | IN_QUOTED_FIELD =>
      match c with
      | None => Ok self
      | Some ch =>
          if Ascii.eqb ch DQUOTE then Ok (set_state QUOTE_IN_QUOTED_FIELD self)
          else parse_add_char self ch
      end
  | QUOTE_IN_QUOTED_FIELD =>
      match c with
      | None => Ok (set_state START_RECORD (parse_save_field self))
      | Some ch =>
          if Ascii.eqb ch DQUOTE
          then rmap (set_state IN_QUOTED_FIELD) (parse_add_char self ch)
          else if Ascii.eqb ch COMMA
               then Ok (set_state START_FIELD (parse_save_field self))
          else if is_newline ch
               then Ok (set_state EAT_CRNL (parse_save_field self))
          else rmap (set_state IN_FIELD) (parse_add_char self ch)
      end
  | EAT_CRNL =>
      match c with
      | None => Ok (set_state START_RECORD self)
      | Some ch =>
          if is_newline ch then Ok self else Err NewlineInUnquotedField
      end
  end.

Fixpoint process_chars (self : ReaderObj) (line : string)
  : result Error ReaderObj :=
  match line with
  | EmptyString => Ok self
  | String c rest =>
      rbind (parse_process_char self (Some c)) (fun r => process_chars r rest)
  end.

Definition is_start_record (st : ParserState) : bool :=
  match st with START_RECORD => true | _ => false end.

Definition is_in_quoted_field (st : ParserState) : bool :=
  match st with IN_QUOTED_FIELD => true | _ => false end.

(** [list(reader)], from a reader in state [self]: lines are consumed until
    the parser is back at [START_RECORD], which ends a row; at the end of
    the input a pending field closes the last row. *)
Fixpoint reader_rows (self : ReaderObj) (lines : list string)
  : result Error (list (list string)) :=
  match lines with
  | [] =>
      if negb (String.eqb (field self) "") || is_in_quoted_field (state self)
      then Ok [fields (parse_save_field self)]
      else Ok []
  | line :: rest =>
      rbind (process_chars self line) (fun r1 =>
      rbind (parse_process_char r1 None) (fun r2 =>
        if is_start_record (state r2)
        then rmap (cons (fields r2)) (reader_rows parse_reset rest)
        else reader_rows r2 rest))
  end.

Definition reader (lines : list string) : result Error (list (list string)) :=
  reader_rows parse_reset lines.

(** *** DictWriter and DictReader *)

Definition key_text (k : key) : string :=
  match k with KNone => "" | KStr s => s end.

Section Cells.
(** [str(v)] for a value that is neither a string, [None], a bool nor an
    int: the repr of a float, a list or a dict. *)
Variable py_repr : value -> string.
(** The order in which the elements of a set of keys come out. *)
Variable set_order : list key -> list key.

(** The text the writer makes of a cell value. *)
Definition cell_text (v : value) : string :=
  match v with
  | VStr s => s
  | VNone => ""
  | VBool b => if b then "True" else "False"
  | VInt z => str_of_int z
  | _ => py_repr v
  end.

(** [DictWriter._dict_to_list] with [extrasaction='raise'] and
    [restval='']: a key outside the field names is an error, a missing
    key an empty cell. The offending keys are the set
    [rowdict.keys() - fieldnames]; the error names them in the order the
    set is iterated in. *)
Definition _dict_to_list (fieldnames : list key) (rowdict : dict)
  : result (list key) (list value) :=
  let wrong_fields :=
    filter (fun k => negb (existsb (key_eqb k) fieldnames)) (keys rowdict) in
  match wrong_fields with
  | _ :: _ => Err (set_order wrong_fields)
  | [] =>
      Ok (map (fun k => match dict_get k rowdict with
                        | Some v => v
                        | None => VStr ""
                        end) fieldnames)
  end.

Definition writeheader (fieldnames : list key) : string :=
  writerow (map key_text fieldnames).

(** [DictWriter.writerows]: rows are written one after the other; the text
    of the rows before a failing one has been written when it fails. *)
Fixpoint writerows (fieldnames : list key) (rowdicts : list dict)
  : string * option (list key) :=
  match rowdicts with
  | [] => ("", None)
  | d :: rest =>
      match _dict_to_list fieldnames d with
      | Err wrong => ("", Some wrong)
      | Ok cells =>
          let '(out, err) := writerows fieldnames rest in
          (writerow (map cell_text cells) ++ out, err)
      end
  end.
End Cells.

(** One row of a [DictReader] with [restkey=None] and [restval=None]. *)
Definition row_dict (fieldnames row : list string) : dict :=
  let d := dict_of (zip (map KStr fieldnames) (map VStr row)) in
  let lf := List.length fieldnames in
  let lr := List.length row in
  if (lf <? lr)%nat then dict_set KNone (VList (map VStr (skipn lf row))) d
  else fold_left (fun d k => dict_set (KStr k) VNone d) (skipn lr fieldnames) d.

Definition is_blank (row : list string) : bool :=
  match row with [] => true | _ :: _ => false end.

(** [list(DictReader(f))] from the rows of the underlying reader: the first
    row is the header, blank rows after it are skipped. *)
Definition DictReader (rows : list (list string)) : list dict :=
  match rows with
  | [] => []
  | fieldnames :: rest =>
      map (row_dict fieldnames) (filter (fun r => negb (is_blank r)) rest)
  end.

End Csv.

(* ================================================================== *)
(** ** [json.dump(obj, f, indent=2)]

    After CPython's [Lib/json/encoder.py].

    The encoder with its defaults: [ensure_ascii] on, [allow_nan] on, item
    separator [,] followed by a line break and the indentation, key
    separator [: ]. *)

Module Json.

Definition hex_digit (n : N) : ascii :=
  match String.get (N.to_nat n) "0123456789abcdef" with
  | Some c => c
  | None => "0"%char
  end.

(** The replacement [ensure_ascii] makes for one character. *)
Definition escape_char (c : ascii) : string :=
  let n := N_of_ascii c in
  if Ascii.eqb c DQUOTE then String BACKSLASH (chr DQUOTE)
  else if Ascii.eqb c BACKSLASH then String BACKSLASH (chr BACKSLASH)
  else if (n =? 10)%N then String BACKSLASH "n"
  else if (n =? 13)%N then String BACKSLASH "r"
  else if (n =? 9)%N then String BACKSLASH "t"
  else if (n =? 8)%N then String BACKSLASH "b"
  else if (n =? 12)%N then String BACKSLASH "f"
  else if ((32 <=? n) && (n <=? 126))%N then chr c
  else String BACKSLASH
         ("u00" ++ chr (hex_digit (n / 16)) ++ chr (hex_digit (n mod 16))).

Fixpoint escape (s : string) : string :=
  match s with
  | EmptyString => EmptyString
  | String c rest => escape_char c ++ escape rest
  end.

Definition encode_str (s : string) : string :=
  chr DQUOTE ++ escape s ++ chr DQUOTE.

(** A dict key: a [str] as it is, [None] as [null]. *)
Definition key_str (k : key) : string :=
  match k with KNone => "null" | KStr s => s end.

Fixpoint spaces (n : nat) : string :=
  match n with O => "" | S n' => String " " (spaces n') end.

Definition newline_indent (level : nat) : string :=
  String LF (spaces (2 * level)).

Section Encoder.
(** [float.__repr__] of a finite float. *)
Variable py_repr : value -> string.

Definition floatstr (f : spec_float) : string :=
  match f with
  | S754_nan => "NaN"
  | S754_infinity false => "Infinity"
  | S754_infinity true => "-Infinity"
  | _ => py_repr (VFloat f)
  end.

Fixpoint encode (level : nat) (v : value) : string :=
  match v with
  | VNone => "null"
  | VBool true => "true"
  | VBool false => "false"
  | VInt z => str_of_int z
  | VFloat f => floatstr f
  | VStr s => encode_str s
  | VList [] => "[]"
  | VList l =>
      "[" ++ newline_indent (S level)
      ++ join ("," ++ newline_indent (S level)) (map (encode (S level)) l)
      ++ newline_indent level ++ "]"
  | VDict [] => "{}"
  | VDict d =>
      "{" ++ newline_indent (S level)
      ++ join ("," ++ newline_indent (S level))
           (map (fun kv => encode_str (key_str (fst kv)) ++ ": "
                           ++ encode (S level) (snd kv)) d)
      ++ newline_indent level ++ "}"
  end.

Definition dumps (data : list dict) : string :=
  encode 0 (VList (map VDict data)).
End Encoder.

End Json.

(* ================================================================== *)
(** ** [os.path.splitext] (POSIX) and [str.lower] *)

Module OsPath.

(** [s.rfind(c)] counted from position [i] of the first character: the
    position of the last [c], or -1. *)
Fixpoint rfind_from (i : Z) (c : ascii) (s : string) : Z :=
  match s with
  | EmptyString => (-1)%Z
  | String a rest =>
      let r := rfind_from (i + 1) c rest in
      if (0 <=? r)%Z then r else if Ascii.eqb a c then i else (-1)%Z
  end.

Definition rfind (c : ascii) (s : string) : Z := rfind_from 0 c s.

Fixpoint all_dots (s : string) : bool :=
  match s with
  | EmptyString => true
  | String c rest => Ascii.eqb c "."%char && all_dots rest
  end.

(** [genericpath._splitext(p, '/', None, '.')]: the extension starts at the
    last dot of the last path component, unless only dots precede it
    there. *)
Definition splitext (p : string) : string * string :=
  let sepIndex := rfind "/"%char p in
  let dotIndex := rfind "."%char p in
  if (sepIndex <? dotIndex)%Z
     && negb (all_dots (substring (Z.to_nat (sepIndex + 1))
                                  (Z.to_nat (dotIndex - (sepIndex + 1))) p))
  then (substring 0 (Z.to_nat dotIndex) p,
        substring (Z.to_nat dotIndex) (String.length p - Z.to_nat dotIndex) p)
  else (p, "").

(** Lower case of a code point below 256: A-Z, and the Latin-1 capitals
    (U+00C0 to U+00DE without the multiplication sign U+00D7). *)
Definition lower_char (c : ascii) : ascii :=
  let n := N_of_ascii c in
  if ((65 <=? n) && (n <=? 90))%N
     || ((192 <=? n) && (n <=? 222) && negb (n =? 215))%N
  then ascii_of_N (n + 32)
  else c.

Fixpoint lower (s : string) : string :=
  match s with
  | EmptyString => EmptyString
  | String c rest => String (lower_char c) (lower rest)
  end.

End OsPath.

(* ================================================================== *)
(** ** The world the script runs in *)

Definition Dataset := list dict.

Inductive exn : Type :=
| FileNotFoundError (path : string)
| OSError (path : string)
| CsvError (e : Csv.Error)
| ValueError (wrong_fields : list key)
| JSONDecodeError.

Inductive io_event : Type :=
| OpenRead (path : string)
| OpenWrite (path : string).

(** The four lines [main] prints to [sys.stderr]. *)
Inductive message : Type :=
| UnsupportedInputType (ext : string)
| ReadFailed (e : exn)
| UnsupportedOutputType (ext : string)
| WriteFailed (e : exn).

Record World : Type := mk_world {
  fs : string -> option string;   (* the files and their text *)
  denied : string -> bool;        (* paths [open] refuses *)
  same_file : string -> string -> bool;
                                  (* two spellings of one file, as in
                                     [data.csv] and [./data.csv] *)
  set_order : list key -> list key;
                                  (* how this process arranges the members
                                     of a set of keys when it iterates over
                                     it; string hashing is seeded per
                                     process *)
  clock : nat -> datetime;        (* what the n-th reading of the clock gives *)
  clock_reads : nat;              (* readings of the clock so far *)
  io_log : list io_event;         (* calls of [open], oldest first *)
  stderr : list message           (* lines printed to [sys.stderr] *)
}.

Definition IO (A : Type) : Type := World -> result exn A * World.

Definition ret {A} (a : A) : IO A := fun w => (Ok a, w).

Definition raise {A} (e : exn) : IO A := fun w => (Err e, w).

Definition bind {A B} (c : IO A) (k : A -> IO B) : IO B :=
  fun w => match c w with
           | (Ok a, w') => k a w'
           | (Err e, w') => (Err e, w')
           end.

Declare Scope io_scope.
Delimit Scope io_scope with io.
Notation "x <- c ;; k" := (bind c (fun x => k))
  (at level 61, c at next level, right associativity) : io_scope.
Notation "c ;; k" := (bind c (fun _ => k))
  (at level 61, right associativity) : io_scope.

Definition log_open (ev : io_event) (w : World) : World :=
  mk_world (fs w) (denied w) (same_file w) (set_order w) (clock w)
           (clock_reads w) (io_log w ++ [ev]) (stderr w).

(** Writing to [path] changes what every spelling of that file holds. *)
Definition store (path text : string) (w : World) : World :=
  mk_world (fun p => if String.eqb p path || same_file w p path
                     then Some text else fs w p)
           (denied w) (same_file w) (set_order w) (clock w) (clock_reads w)
           (io_log w) (stderr w).

Definition print_stderr (m : message) (w : World) : World :=
  mk_world (fs w) (denied w) (same_file w) (set_order w) (clock w)
           (clock_reads w) (io_log w) (stderr w ++ [m]).

(** [open(path, 'r')] followed by reading the whole file. The files of the
    model hold text: a file whose bytes the codec of the locale cannot
    decode is not among them. *)
Definition open_read (path : string) : IO string :=
  fun w =>
    let w' := log_open (OpenRead path) w in
    if denied w path then (Err (OSError path), w')
    else match fs w path with
         | None => (Err (FileNotFoundError path), w')
         | Some text => (Ok (TextIO.universal_newlines text), w')
         end.

(** [open(path, 'w', ...)]: the file exists and is empty from then on. *)
Definition open_write (path : string) : IO unit :=
  fun w =>
    let w' := log_open (OpenWrite path) w in
    if denied w path then (Err (OSError path), w')
    else (Ok tt, store path "" w').

(** What the file holds once the [with] block is left. *)
Definition write (path text : string) : IO unit :=
  fun w => (Ok tt, store path text w).

(** [l] holds the members of [s], each as often as [s] does. *)
Definition same_members (l s : list key) : bool :=
  forallb (fun k => Nat.eqb (List.length (filter (key_eqb k) l))
                            (List.length (filter (key_eqb k) s)))
          (l ++ s)%list.

(** Iterating over the set of the keys [s]: its members, each once, in the
    order of the running process. *)
Definition set_iter (w : World) (s : list key) : list key :=
  let l := set_order w s in
  if same_members l s then l else s.

Definition set_iteration : IO (list key -> list key) :=
  fun w => (Ok (set_iter w), w).

(** [datetime.now()]. *)
Definition datetime_now (w : World) : datetime * World :=
  (clock w (clock_reads w),
   mk_world (fs w) (denied w) (same_file w) (set_order w) (clock w)
            (S (clock_reads w)) (io_log w) (stderr w)).

(* ================================================================== *)
(** ** process.py *)

Section Script.

(** [json.load] on the text of a file: [None] when it raises. The
    documents of the model are arrays of objects, the shape the script is
    written for; a document of another shape is not among them. *)
Variable json_load : string -> option Dataset.
(** [str(v)] / [repr(v)] of a float, a list or a dict. *)
Variable py_repr : value -> string.

Definition read_csv (file_path : string) : IO Dataset :=
  (text <- open_read file_path ;;
   match Csv.reader (TextIO.readlines text) with
   | Err e => raise (CsvError e)
   | Ok rows => ret (Csv.DictReader rows)
   end)%io.

Definition read_json (file_path : string) : IO Dataset :=
  (text <- open_read file_path ;;
   match json_load text with
   | None => raise JSONDecodeError
   | Some data => ret data
   end)%io.

Definition write_csv (data : Dataset) (file_path : string) : IO unit :=
  match data with
  | [] => ret tt
  | first :: _ =>
      (open_write file_path ;;
       order <- set_iteration ;;
       let fieldnames := keys first in
       let '(rows, err) := Csv.writerows py_repr order fieldnames data in
       write file_path (Csv.writeheader fieldnames ++ rows) ;;
       match err with
       | Some wrong => raise (ValueError wrong)
       | None => ret tt
       end)%io
  end.

Definition write_json (data : Dataset) (file_path : string) : IO unit :=
  (open_write file_path ;;
   write file_path (Json.dumps py_repr data))%io.

(** The dict comprehension of [filter_empty] on one record. *)
Definition filter_empty (item : dict) : dict :=
  filter (fun kv => truthy (snd kv)) item.

(** [item['timestamp'] = timestamp]. *)
Definition add_timestamp (timestamp : string) (item : dict) : dict :=
  dict_set (KStr "timestamp") (VStr timestamp) item.

(** [add_timestamp] assigns into the dicts of [result] in place. The dicts
    of a dataset are distinct objects (each row or JSON object is built
    afresh by the reader), and assigning the same timestamp twice to one
    dict is assigning it once, so the result is the list of updated
    dicts. *)
Definition process_data (data : Dataset) (operations : list string)
  (w : World) : Dataset * World :=
  let result := data in
  let result :=
    if str_in "filter_empty" operations then map filter_empty result
    else result in
  if str_in "add_timestamp" operations then
    let '(now, w') := datetime_now w in
    let timestamp := isoformat now in
    (map (add_timestamp timestamp) result, w')
  else (result, w).

(** The namespace [argparse] hands to [main]. The two flags are
    [store_true] options: each is [true] when it occurs on the command
    line, wherever it occurs. *)
Record Args : Type := mk_args {
  input : string;
  output : string;
  arg_filter_empty : bool;
  arg_add_timestamp : bool
}.

Definition operations_of (args : Args) : list string :=
  (if arg_filter_empty args then ["filter_empty"] else [])
  ++ (if arg_add_timestamp args then ["add_timestamp"] else []).

(** [main] from the parsed arguments on: the exit status of the process
    and the world it leaves. What [parse_args] does with a command line it
    rejects (usage message, status 2) or with [--help] comes before. *)
Definition main (args : Args) (w : World) : Z * World :=
  let input_ext := OsPath.lower (snd (OsPath.splitext (input args))) in
  let output_ext := OsPath.lower (snd (OsPath.splitext (output args))) in
  let reading :=
    if String.eqb input_ext ".csv" then Some (read_csv (input args) w)
    else if String.eqb input_ext ".json" then Some (read_json (input args) w)
    else None in
  match reading with
  | None => (1%Z, print_stderr (UnsupportedInputType input_ext) w)
  | Some (Err e, w1) => (1%Z, print_stderr (ReadFailed e) w1)
  | Some (Ok data, w1) =>
      let operations := operations_of args in
      let '(processed_data, w2) := process_data data operations w1 in
      let writing :=
        if String.eqb output_ext ".csv"
        then Some (write_csv processed_data (output args) w2)
        else if String.eqb output_ext ".json"
        then Some (write_json processed_data (output args) w2)
        else None in
      match writing with
      | None => (1%Z, print_stderr (UnsupportedOutputType output_ext) w2)
      | Some (Err e, w3) => (1%Z, print_stderr (WriteFailed e) w3)
      | Some (Ok _, w3) => (0%Z, w3)
      end
  end.

End Script.

(* ================================================================== *)
(** ** Sample inputs for the worked examples *)

Definition nl : string := chr LF.

(** A quoted word, as it stands in a JSON text. *)
Definition q (s : string) : string := chr DQUOTE ++ s ++ chr DQUOTE.

(** A loader that knows the empty document only. *)
Definition sample_json_load (text : string) : option Dataset :=
  if String.eqb text "[]" then Some [] else None.

Definition sample_repr (v : value) : string := "".

Definition sample_clock (n : nat) : datetime :=
  mk_datetime 2024 5 17 9 30 (N.of_nat n) 0.

(** A world with the given files, every path accessible and spelled one
    way only, sets iterated in the order of insertion, nothing read or
    printed yet. *)
Definition sample_world (files : list (string * string)) : World :=
  mk_world
    (fun p => option_map snd (find (fun f => String.eqb p (fst f)) files))
    (fun _ => false) (fun _ _ => false) (fun l => l) sample_clock 0 [] [].

(** The input of the specification's scenario. *)
Definition scenario_csv : string :=
  "name,age,city" ++ nl ++ "Alice,,NYC" ++ nl ++ "Bob,30," ++ nl.

Definition scenario_records : Dataset :=
  [ [(KStr "name", VStr "Alice"); (KStr "city", VStr "NYC")];
    [(KStr "name", VStr "Bob"); (KStr "age", VStr "30")] ].

Definition scenario_json : string :=
  "[" ++ nl
  ++ "  {" ++ nl
  ++ "    " ++ q "name" ++ ": " ++ q "Alice" ++ "," ++ nl
  ++ "    " ++ q "city" ++ ": " ++ q "NYC" ++ nl
  ++ "  }," ++ nl
  ++ "  {" ++ nl
  ++ "    " ++ q "name" ++ ": " ++ q "Bob" ++ "," ++ nl
  ++ "    " ++ q "age" ++ ": " ++ q "30" ++ nl
  ++ "  }" ++ nl
  ++ "]".

(** What the transformer does to one record, given the requested
    operations and the timestamp of the run. *)
Definition per_record (operations : list string) (timestamp : string)
  (item : dict) : dict :=
  let item :=
    if str_in "filter_empty" operations then filter_empty item else item in
  if str_in "add_timestamp" operations then add_timestamp timestamp item
  else item.

Definition is_str (v : value) : Prop := exists s, v = VStr s.

(** [v == '']. *)
Definition is_empty_str (v : value) : bool :=
  match v with
  | VStr EmptyString => true
  | _ => false
  end.

(** A record whose first key is bound to the empty string. *)
Definition stale_stamp : dict :=
  [(KStr "timestamp", VStr ""); (KStr "id", VStr "7")].

(** Every key of the record is one of the field names. *)
Definition in_fieldnames (fieldnames : list key) (d : dict) : bool :=
  forallb (fun k => existsb (key_eqb k) fieldnames) (keys d).

(** The keys of the record that are not field names. *)
Definition wrong_fields (fieldnames : list key) (d : dict) : list key :=
  filter (fun k => negb (existsb (key_eqb k) fieldnames)) (keys d).

(** The row of a record under a header: one cell per field name, in the
    header's order, empty where the record has no such key. *)
Definition row_text (py_repr : value -> string) (fieldnames : list key)
  (d : dict) : string :=
  Csv.writerow
    (map (fun k => Csv.cell_text py_repr
                     (match dict_get k d with
                      | Some v => v
                      | None => VStr ""
                      end)) fieldnames).

Definition rows_text (py_repr : value -> string) (fieldnames : list key)
  (data : Dataset) : string :=
  fold_right (fun d out => row_text py_repr fieldnames d ++ out) "" data.

(** Two records, the second with a key the first does not have. *)
Definition ragged : Dataset :=
  [ [(KStr "a", VStr "1")];
    [(KStr "a", VStr "2"); (KStr "b", VStr "3")] ].

(** Two records, the second without a key the first has. *)
Definition sparse : Dataset :=
  [ [(KStr "a", VStr "1"); (KStr "b", VStr "2")];
    [(KStr "a", VStr "3")] ].

Definition crlf : string := chr CR ++ chr LF.

(* ================================================================== *)
(** ** Vocabulary of the CSV round trip *)

(** [c in s]. *)
Fixpoint mentions (c : ascii) (s : string) : bool :=
  match s with
  | EmptyString => false
  | String a rest => Ascii.eqb a c || mentions c rest
  end.

(** A string the CSV file can carry and give back: no carriage return, and
    no longer than the reader's field limit. *)
Definition csv_safe (s : string) : Prop :=
  mentions CR s = false
  /\ (N.of_nat (String.length s) <= Csv.field_limit)%N.

(** The text of the record the writer builds before the line terminator. *)
Definition row_body (cells : list string) : string :=
  let rec_ := join (chr COMMA) (map Csv.join_append cells) in
  if (0 <? List.length cells)%nat && String.eqb rec_ ""
  then chr DQUOTE ++ chr DQUOTE
  else rec_.

Definition rows_body (rows : list (list string)) : string :=
  fold_right (fun cells out => Csv.writerow cells ++ out) "" rows.

(** Where the reader stands once the text of a field has gone by: in the
    unquoted field, after the closing quote, or still at the start of an
    empty unquoted field. *)
Inductive after_field (f : string) (flds : list string)
  : Csv.ReaderObj -> Prop :=
| AF_plain : after_field f flds (Csv.mk_reader Csv.IN_FIELD f flds)
| AF_quoted :
    after_field f flds (Csv.mk_reader Csv.QUOTE_IN_QUOTED_FIELD f flds)
| AF_empty_field :
    f = "" -> after_field f flds (Csv.mk_reader Csv.START_FIELD "" flds)
| AF_empty_record :
    f = "" -> Csv.join_append f = "" ->
    after_field f flds (Csv.mk_reader Csv.START_RECORD "" flds).

Definition at_field_start (st : Csv.ParserState) : Prop :=
  st = Csv.START_RECORD \/ st = Csv.START_FIELD.

(** The text of the cell of key [k] in a record with string values. *)
Definition cell_of (d : dict) (k : key) : string :=
  match dict_get k d with
  | Some (VStr s) => s
  | _ => ""
  end.

(** The record as it comes back from a CSV file: the header's keys in the
    header's order, each with the record's cell. *)
Definition under_header (fieldnames : list key) (d : dict) : dict :=
  map (fun k => (k, VStr (cell_of d k))) fieldnames.

(** Keys and values are strings the CSV file can carry. *)
Definition str_fields (d : dict) : Prop :=
  Forall (fun kv => exists k s,
                      kv = (KStr k, VStr s) /\ csv_safe k /\ csv_safe s) d.

Definition same_fields (first d : dict) : Prop :=
  forall k, In k (keys d) <-> In k (keys first).

Definition uniform_record (first d : dict) : Prop :=
  dict_wf d /\ same_fields first d /\ str_fields d.

(** Records with awkward cells: a delimiter, quotes, a line break, an empty
    cell, and keys in two different orders. *)
Definition awkward : Dataset :=
  [ [(KStr "name", VStr ("Ann, " ++ q "A")); (KStr "note", VStr ("one" ++ nl ++ "two"))];
    [(KStr "note", VStr ""); (KStr "name", VStr "Bob")] ].

Definition awkward_back : Dataset :=
  [ [(KStr "name", VStr ("Ann, " ++ q "A")); (KStr "note", VStr ("one" ++ nl ++ "two"))];
    [(KStr "name", VStr "Bob"); (KStr "note", VStr "")] ].

(** Writing a dataset to a file of an otherwise empty world and reading the
    file again. *)
Definition there_and_back (data : Dataset) : result exn Dataset :=
  fst (read_csv "out.csv"
         (snd (write_csv sample_repr data "out.csv" (sample_world [])))).

(** Within the reader's field limit. *)
Definition short (f : string) : Prop :=
  (N.of_nat (String.length f) <= Csv.field_limit)%N.

(** A row with at least one cell, all of them safe. *)
Definition safe_row (cells : list string) : Prop :=
  cells <> [] /\ Forall csv_safe cells.

(* ================================================================== *)
(** ** Vocabulary of the properties of [main] *)

Definition input_ext (args : Args) : string :=
  OsPath.lower (snd (OsPath.splitext (input args))).

Definition output_ext (args : Args) : string :=
  OsPath.lower (snd (OsPath.splitext (output args))).

(** The reader [main] picks for the input path returns [data]. *)
Definition input_reads (json_load : string -> option Dataset) (args : Args)
  (w : World) (data : Dataset) : Prop :=
  (input_ext args = ".csv" /\ fst (read_csv (input args) w) = Ok data)
  \/ (input_ext args = ".json"
      /\ fst (read_json json_load (input args) w) = Ok data).

(** What opening [path] for writing may change: the file at [path], under
    all its spellings, and the log of [open] calls, nothing else. *)
Definition write_effect (path : string) (w w' : World) : Prop :=
  (forall p, p <> path -> same_file w p path = false -> fs w' p = fs w p)
  /\ denied w' = denied w
  /\ clock w' = clock w
  /\ clock_reads w' = clock_reads w
  /\ stderr w' = stderr w
  /\ io_log w' = (io_log w ++ [OpenWrite path])%list.

(* ================================================================== *)
(** ** Vocabulary of the properties of the transformer *)

(** The values Python counts as false: [None], [False], the integer zero,
    a float zero of either sign, the empty string, list and dict. *)
Definition falsy (v : value) : Prop :=
  v = VNone \/ v = VBool false \/ v = VInt 0
  \/ (exists s, v = VFloat (S754_zero s))
  \/ v = VStr "" \/ v = VList [] \/ v = VDict [].

Definition timestamp_key : key := KStr "timestamp".

(** Reading back the text of a timestamp: six runs of digits separated by
    [-], [-], [T], [:] and [:], then nothing or a dot and a last run, the
    microseconds. *)
Definition is_digit (c : ascii) : bool :=
  match NilEmpty.uint_of_string (String c "") with
  | Some _ => true
  | None => false
  end.

Fixpoint span_digits (s : string) : string * string :=
  match s with
  | "" => ("", "")
  | String c s' =>
      if is_digit c then
        let '(digits, rest) := span_digits s' in (String c digits, rest)
      else ("", s)
  end.

Definition read_number (s : string) : option (N * string) :=
  let '(digits, rest) := span_digits s in
  match NilZero.uint_of_string digits with
  | Some u => Some (N.of_uint u, rest)
  | None => None
  end.

Definition read_field (sep : ascii) (s : string) : option (N * string) :=
  match read_number s with
  | Some (n, String c rest) =>
      if Ascii.eqb c sep then Some (n, rest) else None
  | _ => None
  end.

Definition obind {A B} (o : option A) (k : A -> option B) : option B :=
  match o with Some a => k a | None => None end.

Definition read_iso (s : string) : option datetime :=
  obind (read_field "-" s) (fun '(y, s) =>
  obind (read_field "-" s) (fun '(mo, s) =>
  obind (read_field "T" s) (fun '(d, s) =>
  obind (read_field ":" s) (fun '(h, s) =>
  obind (read_field ":" s) (fun '(mi, s) =>
  obind (read_number s) (fun '(sec, s) =>
  match s with
  | "" => Some (mk_datetime y mo d h mi sec 0)
  | String c s' =>
      if Ascii.eqb c "." then
        obind (read_number s') (fun '(us, rest) =>
        match rest with
        | "" => Some (mk_datetime y mo d h mi sec us)
        | _ => None
        end)
      else None
  end)))))).

(** [s] does not go on with a digit. *)
Definition not_digit_first (s : string) : Prop :=
  match s with "" => True | String c _ => is_digit c = false end.

(** A world whose clock has been read once already. *)
Definition stamped_world : World := snd (datetime_now (sample_world [])).

(** A record with values of every kind, some of them false. *)
Definition mixed : dict :=
  [(KStr "a", VInt 0); (KStr "b", VInt 7); (KStr "c", VNone);
   (KStr "d", VBool false); (KStr "e", VStr "x"); (KStr "f", VList []);
   (KStr "g", VFloat (S754_zero true)); (KStr "timestamp", VStr "old")].

(* ================================================================== *)
(** ** Vocabulary of the properties of the CSV reader *)

(** The record of a data row under a header: names and cells paired as far
    as both go, then [None] for the names left over, or the cells left
    over as a list under the key [None]. *)
Definition row_record (fieldnames row : list string) : dict :=
  (zip (map KStr fieldnames) (map VStr row)
   ++ (if (List.length fieldnames <? List.length row)%nat
       then [(KNone, VList (map VStr (skipn (List.length fieldnames) row)))]
       else map (fun k => (KStr k, VNone))
                (skipn (List.length row) fieldnames)))%list.

(** A key or value made of strings without a carriage return: the shapes
    [read_csv] produces ([str], [None], a list of [str]). *)
Definition key_clean (k : key) : Prop :=
  match k with
  | KStr s => mentions CR s = false
  | KNone => True
  end.

Definition cell_clean (v : value) : Prop :=
  match v with
  | VStr s => mentions CR s = false
  | _ => False
  end.

Definition value_clean (v : value) : Prop :=
  match v with
  | VStr s => mentions CR s = false
  | VNone => True
  | VList l => Forall cell_clean l
  | _ => False
  end.

Definition field_clean (kv : key * value) : Prop :=
  key_clean (fst kv) /\ value_clean (snd kv).

(** No carriage return in the field being read nor in the fields read. *)
Definition reader_clean (r : Csv.ReaderObj) : Prop :=
  mentions CR (Csv.field r) = false
  /\ Forall (fun f => mentions CR f = false) (Csv.fields r).

(** A line as iteration over a file in universal newlines mode yields it:
    no line break inside, at most a line feed at the end. *)
Definition line_ok (l : string) : Prop :=
  exists body,
    mentions LF body = false /\ mentions CR body = false
    /\ (l = body \/ l = body ++ chr LF).

Definition not_eating (r : Csv.ReaderObj) : Prop :=
  Csv.state r <> Csv.EAT_CRNL.

(* ================================================================== *)
(** ** Vocabulary of the properties of the JSON writer *)

(** A printable ASCII character or a line feed. *)
Definition plain_ascii (c : ascii) : bool :=
  Ascii.eqb c LF
  || ((32 <=? N_of_ascii c)%N && (N_of_ascii c <=? 126)%N).

Fixpoint all_chars (p : ascii -> bool) (s : string) : bool :=
  match s with
  | EmptyString => true
  | String c rest => p c && all_chars p rest
  end.

(** The number of constructors of a value. *)
Fixpoint value_size (v : value) : nat :=
  match v with
  | VList l => S (list_sum (map value_size l))
  | VDict d => S (list_sum (map (fun kv => value_size (snd kv)) d))
  | _ => 1
  end.

(* ================================================================== *)
(** ** More sample inputs *)

(** The records of the scenario file as [read_csv] returns them. *)
Definition scenario_rows : Dataset :=
  [ [(KStr "name", VStr "Alice"); (KStr "age", VStr "");
     (KStr "city", VStr "NYC")];
    [(KStr "name", VStr "Bob"); (KStr "age", VStr "30");
     (KStr "city", VStr "")] ].

Definition scenario_world : World :=
  sample_world [("data.csv", scenario_csv); ("empty.json", "[]")].

(** The scenario file in a world where [./data.csv] is another spelling
    of [data.csv]. *)
Definition respelled_world : World :=
  mk_world (fs scenario_world) (denied scenario_world)
    (fun p q => (String.eqb p "data.csv" && String.eqb q "./data.csv")
                || (String.eqb p "./data.csv" && String.eqb q "data.csv"))
    (set_order scenario_world) (clock scenario_world) 0 [] [].

(** A file with a carriage return inside a quoted cell. *)
Definition cr_csv : string :=
  "a" ++ nl ++ q ("x" ++ chr CR ++ "y") ++ nl.

(** A world whose process iterates over sets in the reverse of the order
    of insertion. *)
Definition reversed_world (files : list (string * string)) : World :=
  mk_world (fs (sample_world files)) (fun _ => false) (fun _ _ => false)
    (@rev key) sample_clock 0 [] [].

(** A file whose second row has cells where the first has none. *)
Definition uneven_csv : string :=
  "name,age,city" ++ nl ++ "Alice,," ++ nl ++ "Bob,30,LA" ++ nl.

Definition uneven_rows : Dataset :=
  [ [(KStr "name", VStr "Alice"); (KStr "age", VStr "");
     (KStr "city", VStr "")];
    [(KStr "name", VStr "Bob"); (KStr "age", VStr "30");
     (KStr "city", VStr "LA")] ].

Definition uneven_world : World := reversed_world [("data.csv", uneven_csv)].

(** A file whose only line is one cell, one character longer than the
    reader's field limit. *)
Definition long_csv : string :=
  String "a" (zeros (N.to_nat Csv.field_limit)) ++ chr LF.

Definition long_world : World := sample_world [("long.csv", long_csv)].

(* ================================================================== *)
(** ** Dicts *)

Lemma key_eqb_refl : forall k, key_eqb k k = true.
Proof. destruct k; simpl; auto using String.eqb_refl. Qed.

Lemma key_eqb_eq : forall a b, key_eqb a b = true <-> a = b.
Proof.
  destruct a, b; simpl; split; intro H; try congruence; auto.
  - apply String.eqb_eq in H; congruence.
  - inversion H; apply String.eqb_refl.
Qed.

Lemma key_eqb_neq : forall a b, key_eqb a b = false <-> a <> b.
Proof.
  intros a b; split; intro H.
  - intro E; apply key_eqb_eq in E; congruence.
  - destruct (key_eqb a b) eqn:E; auto. apply key_eqb_eq in E; contradiction.
Qed.

Lemma dict_get_set_same : forall k v d, dict_get k (dict_set k v d) = Some v.
Proof.
  induction d as [|[k' v'] d IH]; simpl.
  - now rewrite key_eqb_refl.
  - destruct (key_eqb k k') eqn:E; simpl; rewrite E; auto.
Qed.

Lemma dict_get_set_other : forall k k' v d,
  k' <> k -> dict_get k' (dict_set k v d) = dict_get k' d.
Proof.
  intros k k' v d Hne; induction d as [|[k0 v0] d IH]; simpl.
  - apply key_eqb_neq in Hne; now rewrite Hne.
  - destruct (key_eqb k k0) eqn:E; simpl.
    + apply key_eqb_eq in E; subst k0.
      apply key_eqb_neq in Hne; now rewrite Hne.
    + now rewrite IH.
Qed.

Lemma keys_dict_set_absent : forall k v d,
  ~ In k (keys d) -> dict_set k v d = (d ++ [(k, v)])%list.
Proof.
  induction d as [|[k' v'] d IH]; simpl; intro H; auto.
  destruct (key_eqb k k') eqn:E.
  - apply key_eqb_eq in E; subst; tauto.
  - f_equal; apply IH; tauto.
Qed.

Lemma Forall_dict_set : forall (P : key * value -> Prop) k v d,
  (forall k', P (k', v)) -> Forall P d -> Forall P (dict_set k v d).
Proof.
  intros P k v d Hv; induction 1 as [|[k' v'] d Hx Hd IH]; simpl.
  - constructor; auto.
  - destruct (key_eqb k k'); constructor; auto.
Qed.

(* ================================================================== *)
(** ** The transformer *)

Lemma filter_empty_idempotent : forall item,
  filter_empty (filter_empty item) = filter_empty item.
Proof.
  unfold filter_empty; induction item as [|[k v] item IH]; simpl; auto.
  destruct (truthy v) eqn:E; simpl; rewrite ?E, IH; auto.
Qed.

Lemma process_data_per_record : forall data operations w,
  fst (process_data data operations w)
  = map (per_record operations (isoformat (clock w (clock_reads w)))) data.
Proof.
  intros data operations w; unfold process_data, per_record, datetime_now.
  destruct (str_in "filter_empty" operations),
           (str_in "add_timestamp" operations); simpl;
    rewrite ?map_map, ?map_id; reflexivity.
Qed.

(** C5. [filter_empty] is idempotent: running it on its own result gives
    that result again, record for record and through [process_data]. *)
Theorem filter_empty_twice :
  forall (data : Dataset) (w : World),
    let once := process_data data ["filter_empty"] w in
    process_data (fst once) ["filter_empty"] (snd once) = once
    /\ fst once = map filter_empty data
    /\ map filter_empty (map filter_empty data) = map filter_empty data.
Proof.
  intros data w; cbn.
  assert (H : map filter_empty (map filter_empty data) = map filter_empty data).
  { rewrite map_map; apply map_ext; intro; apply filter_empty_idempotent. }
  unfold process_data; cbn; rewrite H; auto.
Qed.

(** C9. The transformer keeps the number and the order of the records: its
    result is the input with one function applied to every record, so the
    i-th output record comes from the i-th input record; with no operation
    requested the dataset and the world come back as they were. *)
Theorem process_data_preserves_order :
  forall (data : Dataset) (operations : list string) (w : World),
    let result := fst (process_data data operations w) in
    let f := per_record operations (isoformat (clock w (clock_reads w))) in
    List.length result = List.length data
    /\ result = map f data
    /\ (forall i, nth_error result i = option_map f (nth_error data i))
    /\ process_data data [] w = (data, w).
Proof.
  intros data operations w; cbn zeta.
  rewrite process_data_per_record; repeat split.
  - apply length_map.
  - intro i; apply nth_error_map.
Qed.

(** C4. With both operations requested, in whichever order they are named,
    every record is filtered first and stamped second: the result is
    [add_timestamp] applied to the filtered record, so each record of the
    result carries the timestamp of the run, also when a field of that name
    was dropped by the filter. [main] names the operations in that order
    whatever the command line looked like. *)
Theorem filter_then_timestamp :
  forall (data : Dataset) (operations : list string) (w : World),
    str_in "filter_empty" operations = true ->
    str_in "add_timestamp" operations = true ->
    let timestamp := isoformat (clock w (clock_reads w)) in
    let result := fst (process_data data operations w) in
    result = map (fun item => add_timestamp timestamp (filter_empty item)) data
    /\ Forall (fun item =>
                 dict_get (KStr "timestamp") item = Some (VStr timestamp))
              result
    /\ process_data data ["add_timestamp"; "filter_empty"] w
       = process_data data ["filter_empty"; "add_timestamp"] w
    /\ (forall i o, operations_of (mk_args i o true true)
                    = ["filter_empty"; "add_timestamp"]).
Proof.
  intros data operations w Hf Ht; cbn zeta.
  rewrite process_data_per_record; unfold per_record; rewrite Hf, Ht.
  repeat split.
  apply Forall_map, Forall_forall; intros item _; apply dict_get_set_same.
Qed.

Lemma filter_then_timestamp_witness :
  str_in "filter_empty" ["add_timestamp"; "filter_empty"] = true
  /\ str_in "add_timestamp" ["add_timestamp"; "filter_empty"] = true
  /\ fst (process_data [stale_stamp] ["add_timestamp"; "filter_empty"]
            (sample_world []))
     = [[(KStr "id", VStr "7");
         (KStr "timestamp", VStr "2024-05-17T09:30:00")]].
Proof.
  split; [reflexivity|]; split; [reflexivity|].
  apply (filter_then_timestamp [stale_stamp] ["add_timestamp"; "filter_empty"]
           (sample_world [])); reflexivity.
Defined.

(** Stamping first and filtering second would leave the key where the
    input had it: the order of the two operations shows in the result. *)
Example timestamp_then_filter_differs :
  map filter_empty (map (add_timestamp "2024-05-17T09:30:00") [stale_stamp])
  = [[(KStr "timestamp", VStr "2024-05-17T09:30:00"); (KStr "id", VStr "7")]].
Proof. reflexivity. Qed.

(* ================================================================== *)
(** ** [filter_empty] on records read from CSV *)

Lemma truthy_str : forall s, truthy (VStr s) = negb (is_empty_str (VStr s)).
Proof. destruct s; reflexivity. Qed.

Lemma in_zip_r : forall {A B} (xs : list A) (ys : list B) a b,
  In (a, b) (zip xs ys) -> In b ys.
Proof.
  induction xs as [|x xs IH]; destruct ys as [|y ys]; simpl; try tauto.
  intros a b [E|H]; [inversion E; auto | right; eapply IH; eauto].
Qed.

Lemma Forall_dict_of_from : forall (P : key * value -> Prop) kvs d,
  (forall kv, In kv kvs -> forall k, P (k, snd kv)) ->
  Forall P d ->
  Forall P (fold_left (fun d kv => dict_set (fst kv) (snd kv) d) kvs d).
Proof.
  induction kvs as [|kv kvs IH]; simpl; intros d Hk Hd; auto.
  apply IH; auto. apply Forall_dict_set; auto.
Qed.

(** A row with as many cells as the header has names gives a dict whose
    values are all strings. *)
Lemma row_dict_strings : forall fieldnames row,
  List.length row = List.length fieldnames ->
  Forall (fun kv => is_str (snd kv)) (Csv.row_dict fieldnames row).
Proof.
  intros fieldnames row Hlen; unfold Csv.row_dict.
  rewrite Hlen, Nat.ltb_irrefl, skipn_all; simpl.
  apply Forall_dict_of_from; auto.
  intros [k v] Hin k'; simpl.
  apply in_zip_r, in_map_iff in Hin; destruct Hin as [s [E _]].
  now exists s.
Qed.

(** C10. On a record whose values are all strings, as the CSV reader makes
    them, [filter_empty] keeps the fields in their order and drops exactly
    those bound to the empty string; a non-empty string stays, whatever it
    spells: [0], [false] and a lone blank are kept. *)
Theorem filter_empty_drops_empty_strings :
  forall (item : dict),
    Forall (fun kv => is_str (snd kv)) item ->
    filter_empty item = filter (fun kv => negb (is_empty_str (snd kv))) item
    /\ (forall k s, In (k, VStr s) (filter_empty item)
                    <-> In (k, VStr s) item /\ s <> "")
    /\ filter_empty [(KStr "a", VStr "0"); (KStr "b", VStr "false");
                     (KStr "c", VStr " "); (KStr "d", VStr "")]
       = [(KStr "a", VStr "0"); (KStr "b", VStr "false"); (KStr "c", VStr " ")].
Proof.
  intros item Hstr; repeat split.
  - unfold filter_empty; apply filter_ext_in.
    intros [k v] Hin; simpl.
    rewrite Forall_forall in Hstr; destruct (Hstr _ Hin) as [s E].
    simpl in E; subst v; apply truthy_str.
  - apply filter_In in H; tauto.
  - apply filter_In in H; destruct H as [_ H]; simpl in H.
    intro E; subst s; discriminate.
  - intros [Hin Hne]; apply filter_In; split; auto.
    simpl; destruct s; [contradiction | reflexivity].
Qed.

Lemma filter_empty_drops_empty_strings_witness :
  Forall (fun kv => is_str (snd kv))
         (Csv.row_dict ["name"; "age"; "city"] ["Alice"; ""; "NYC"])
  /\ filter_empty (Csv.row_dict ["name"; "age"; "city"] ["Alice"; ""; "NYC"])
     = [(KStr "name", VStr "Alice"); (KStr "city", VStr "NYC")].
Proof.
  split; [apply row_dict_strings; reflexivity|].
  apply (filter_empty_drops_empty_strings
           (Csv.row_dict ["name"; "age"; "city"] ["Alice"; ""; "NYC"])).
  apply row_dict_strings; reflexivity.
Defined.

(* ================================================================== *)
(** ** The writers on an empty dataset, and the dispatch on extensions *)

(** C7. The empty dataset stays empty under any operations; [write_csv]
    then returns without opening or writing anything, and [write_json]
    leaves the two characters of an empty array in the file. *)
Theorem writers_on_empty_dataset :
  forall (py_repr : value -> string) (operations : list string)
         (path : string) (w : World),
    denied w path = false ->
    fst (process_data [] operations w) = []
    /\ write_csv py_repr [] path w = (Ok tt, w)
    /\ fst (write_json py_repr [] path w) = Ok tt
    /\ fs (snd (write_json py_repr [] path w)) path = Some "[]".
Proof.
  intros py_repr operations path w Hd; repeat split.
  - rewrite process_data_per_record; reflexivity.
  - unfold write_json, bind, open_write; rewrite Hd; reflexivity.
  - unfold write_json, bind, open_write; rewrite Hd; simpl.
    now rewrite String.eqb_refl.
Qed.

Lemma writers_on_empty_dataset_witness :
  denied (sample_world []) "out.json" = false
  /\ fs (snd (write_json sample_repr
                (fst (process_data [] ["filter_empty"; "add_timestamp"]
                        (sample_world [])))
                "out.json" (sample_world [])))
        "out.json"
     = Some "[]".
Proof.
  split; [reflexivity|].
  apply (writers_on_empty_dataset sample_repr ["filter_empty"; "add_timestamp"]
           "out.json" (sample_world [])); reflexivity.
Defined.

(** C8. An input path whose lower-cased extension is neither [.csv] nor
    [.json] ends the run with status 1: one line naming the extension goes
    to the error stream, no file is opened and no file changes. *)
Theorem unsupported_input_extension :
  forall (json_load : string -> option Dataset) (py_repr : value -> string)
         (args : Args) (w : World),
    let input_ext := OsPath.lower (snd (OsPath.splitext (input args))) in
    input_ext <> ".csv" ->
    input_ext <> ".json" ->
    let w' := snd (main json_load py_repr args w) in
    fst (main json_load py_repr args w) = 1%Z
    /\ stderr w' = (stderr w ++ [UnsupportedInputType input_ext])%list
    /\ io_log w' = io_log w
    /\ fs w' = fs w.
Proof.
  intros json_load py_repr args w input_ext Hcsv Hjson.
  apply String.eqb_neq in Hcsv, Hjson.
  unfold main; fold input_ext; rewrite Hcsv, Hjson; cbn.
  repeat split.
Qed.

Lemma unsupported_input_extension_witness :
  OsPath.lower (snd (OsPath.splitext "data.txt")) <> ".csv"
  /\ OsPath.lower (snd (OsPath.splitext "data.txt")) <> ".json"
  /\ fst (main sample_json_load sample_repr
            (mk_args "data.txt" "out.json" true true) (sample_world []))
     = 1%Z.
Proof.
  split; [discriminate|]; split; [discriminate|].
  apply (unsupported_input_extension sample_json_load sample_repr
           (mk_args "data.txt" "out.json" true true) (sample_world []));
    discriminate.
Defined.

(** The comparison ignores case: an upper-case extension is accepted. *)
Example upper_case_extension :
  OsPath.lower (snd (OsPath.splitext "REPORT.CSV")) = ".csv"
  /\ OsPath.lower (snd (OsPath.splitext "dir.d/data.Json")) = ".json".
Proof. split; reflexivity. Qed.

(* ================================================================== *)
(** ** The scenario of the specification *)

Example scenario_read :
  fst (read_csv "data.csv" (sample_world [("data.csv", scenario_csv)]))
  = Ok [ [(KStr "name", VStr "Alice"); (KStr "age", VStr "");
          (KStr "city", VStr "NYC")];
         [(KStr "name", VStr "Bob"); (KStr "age", VStr "30");
          (KStr "city", VStr "")] ].
Proof. reflexivity. Qed.

(** C1. The file [name,age,city / Alice,,NYC / Bob,30,] run through [main]
    with [--filter-empty] and a JSON output: the run succeeds, the records
    written are [name, city] for Alice and [name, age] for Bob, all values
    strings and the empty cells gone, and the output file holds their JSON
    text with two-space indentation. *)
Theorem scenario_csv_to_json :
  forall (json_load : string -> option Dataset) (py_repr : value -> string)
         (w : World),
    fs w "data.csv" = Some scenario_csv ->
    denied w "data.csv" = false ->
    denied w "out.json" = false ->
    let run := main json_load py_repr
                 (mk_args "data.csv" "out.json" true false) w in
    fst run = 0%Z
    /\ fs (snd run) "out.json" = Some (Json.dumps py_repr scenario_records)
    /\ Json.dumps py_repr scenario_records = scenario_json
    /\ stderr (snd run) = stderr w
    /\ Forall (Forall (fun kv => is_str (snd kv))) scenario_records
    /\ map keys scenario_records
       = [[KStr "name"; KStr "city"]; [KStr "name"; KStr "age"]].
Proof.
  intros json_load py_repr w Hfs Hin Hout run.
  assert (Hrun : run = (0%Z,
            store "out.json" (Json.dumps py_repr scenario_records)
              (store "out.json" ""
                 (log_open (OpenWrite "out.json")
                    (log_open (OpenRead "data.csv") w))))).
  { unfold run, main, read_csv, bind, open_read; cbn [input output].
    change (OsPath.lower (snd (OsPath.splitext "data.csv"))) with ".csv".
    change (OsPath.lower (snd (OsPath.splitext "out.json"))) with ".json".
    cbn [String.eqb Ascii.eqb Bool.eqb]; rewrite Hin, Hfs.
    change (Csv.reader (TextIO.readlines (TextIO.universal_newlines scenario_csv)))
      with (@Ok Csv.Error _
              [["name"; "age"; "city"]; ["Alice"; ""; "NYC"]; ["Bob"; "30"; ""]]).
    cbv beta iota; unfold ret.
    change (Csv.DictReader _) with
      [ [(KStr "name", VStr "Alice"); (KStr "age", VStr "");
         (KStr "city", VStr "NYC")];
        [(KStr "name", VStr "Bob"); (KStr "age", VStr "30");
         (KStr "city", VStr "")] ].
    unfold process_data; cbn [operations_of arg_filter_empty arg_add_timestamp
                              app str_in existsb String.eqb Ascii.eqb Bool.eqb orb].
    change (map filter_empty _) with scenario_records.
    unfold write_json, bind, open_write, write.
    cbn [denied log_open]; rewrite Hout; reflexivity. }
  rewrite Hrun; cbn [fst snd]; repeat split.
  repeat constructor; eexists; reflexivity.
Qed.

Lemma scenario_csv_to_json_witness :
  fs (sample_world [("data.csv", scenario_csv)]) "data.csv" = Some scenario_csv
  /\ fs (snd (main sample_json_load sample_repr
                (mk_args "data.csv" "out.json" true false)
                (sample_world [("data.csv", scenario_csv)])))
        "out.json"
     = Some scenario_json.
Proof.
  split; [reflexivity|].
  destruct (scenario_csv_to_json sample_json_load sample_repr
              (sample_world [("data.csv", scenario_csv)])
              eq_refl eq_refl eq_refl) as (_ & Hfile & Htext & _).
  rewrite <- Htext; exact Hfile.
Defined.

(* ================================================================== *)
(** ** [write_csv]: header and rows *)

Lemma filter_negb_forallb : forall {A} (p : A -> bool) l,
  forallb p l = true -> filter (fun x => negb (p x)) l = [].
Proof.
  induction l as [|x l IH]; simpl; auto.
  intro H; apply andb_true_iff in H; destruct H as [Hx Hl].
  rewrite Hx; simpl; auto.
Qed.

Lemma filter_negb_not_forallb : forall {A} (p : A -> bool) l,
  forallb p l = false -> filter (fun x => negb (p x)) l <> [].
Proof.
  induction l as [|x l IH]; simpl; try discriminate.
  destruct (p x); simpl; auto; discriminate.
Qed.

Lemma dict_to_list_ok : forall order fieldnames d,
  in_fieldnames fieldnames d = true ->
  Csv._dict_to_list order fieldnames d
  = Ok (map (fun k => match dict_get k d with
                      | Some v => v
                      | None => VStr ""
                      end) fieldnames).
Proof.
  intros order fieldnames d H; unfold Csv._dict_to_list.
  unfold in_fieldnames in H.
  now rewrite (filter_negb_forallb _ _ H).
Qed.

Lemma dict_to_list_err : forall order fieldnames d,
  in_fieldnames fieldnames d = false ->
  Csv._dict_to_list order fieldnames d
  = Err (order (wrong_fields fieldnames d)).
Proof.
  intros order fieldnames d H; unfold Csv._dict_to_list.
  apply filter_negb_not_forallb in H; fold (wrong_fields fieldnames d) in *.
  destruct (wrong_fields fieldnames d); congruence.
Qed.

Lemma writerows_ok : forall py_repr order fieldnames data,
  forallb (in_fieldnames fieldnames) data = true ->
  Csv.writerows py_repr order fieldnames data
  = (rows_text py_repr fieldnames data, None).
Proof.
  induction data as [|d data IH]; simpl; auto.
  intro H; apply andb_true_iff in H; destruct H as [Hd Hdata].
  rewrite (dict_to_list_ok _ _ _ Hd), (IH Hdata).
  unfold row_text; now rewrite map_map.
Qed.

Lemma writerows_stops : forall py_repr order fieldnames pre d post,
  forallb (in_fieldnames fieldnames) pre = true ->
  in_fieldnames fieldnames d = false ->
  Csv.writerows py_repr order fieldnames (pre ++ d :: post)%list
  = (rows_text py_repr fieldnames pre,
     Some (order (wrong_fields fieldnames d))).
Proof.
  induction pre as [|x pre IH]; simpl; intros d post Hpre Hd.
  - now rewrite (dict_to_list_err _ _ _ Hd).
  - apply andb_true_iff in Hpre; destruct Hpre as [Hx Hpre].
    rewrite (dict_to_list_ok _ _ _ Hx), (IH _ _ Hpre Hd).
    unfold row_text; now rewrite map_map.
Qed.

(* ================================================================== *)
(** ** The CSV round trip *)

(** *** Strings *)

Lemma sapp_assoc : forall a b c : string, (a ++ b) ++ c = a ++ (b ++ c).
Proof. induction a; simpl; intros; congruence. Qed.

Lemma sapp_nil_r : forall a : string, a ++ "" = a.
Proof. induction a; simpl; congruence. Qed.

Lemma slength_app : forall a b : string,
  String.length (a ++ b) = (String.length a + String.length b)%nat.
Proof. induction a; simpl; intros; auto. Qed.

Lemma mentions_app : forall c a b,
  mentions c (a ++ b) = mentions c a || mentions c b.
Proof.
  induction a; simpl; intros; auto. rewrite IHa; apply orb_assoc.
Qed.

(** *** Universal newlines *)

Lemma universal_newlines_app : forall a b,
  mentions CR a = false ->
  TextIO.universal_newlines (a ++ b) = a ++ TextIO.universal_newlines b.
Proof.
  induction a as [|c a IH]; simpl; intros b H; auto.
  apply orb_false_iff in H; destruct H as [Hc Ha].
  rewrite Hc; f_equal; auto.
Qed.

Lemma universal_newlines_crlf : forall b,
  TextIO.universal_newlines (String CR (String LF b))
  = String LF (TextIO.universal_newlines b).
Proof. reflexivity. Qed.

(** *** The reader, one character at a time *)

Lemma readlines_nonempty : forall s, s <> "" -> TextIO.readlines s <> [].
Proof.
  destruct s as [|c s]; [congruence|]; intros _; simpl.
  destruct (Ascii.eqb c LF); [discriminate|].
  destruct (TextIO.readlines s); discriminate.
Qed.

Lemma reader_rows_char : forall r c s,
  c <> LF -> s <> "" ->
  Csv.reader_rows r (TextIO.readlines (String c s))
  = rbind (Csv.parse_process_char r (Some c))
          (fun r' => Csv.reader_rows r' (TextIO.readlines s)).
Proof.
  intros r c s Hc Hs; simpl.
  apply Ascii.eqb_neq in Hc; rewrite Hc.
  destruct (TextIO.readlines s) as [|l ls] eqn:E.
  - now apply readlines_nonempty in Hs.
  - simpl. destruct (Csv.parse_process_char r (Some c)); reflexivity.
Qed.

Lemma reader_rows_newline : forall r s,
  Csv.reader_rows r (TextIO.readlines (String LF s))
  = rbind (Csv.parse_process_char r (Some LF)) (fun r1 =>
    rbind (Csv.parse_process_char r1 None) (fun r2 =>
      if Csv.is_start_record (Csv.state r2)
      then rmap (cons (Csv.fields r2))
                (Csv.reader_rows Csv.parse_reset (TextIO.readlines s))
      else Csv.reader_rows r2 (TextIO.readlines s))).
Proof.
  intros r s; simpl.
  destruct (Csv.parse_process_char r (Some LF)); reflexivity.
Qed.

Lemma parse_add_char_ok : forall st acc flds c,
  (N.of_nat (String.length acc) < Csv.field_limit)%N ->
  Csv.parse_add_char (Csv.mk_reader st acc flds) c
  = Ok (Csv.mk_reader st (acc ++ chr c) flds).
Proof.
  intros st acc flds c H; unfold Csv.parse_add_char; simpl.
  apply N.leb_gt in H; now rewrite H.
Qed.

Lemma room_for_char : forall acc c f,
  (N.of_nat (String.length (acc ++ String c f)) <= Csv.field_limit)%N ->
  (N.of_nat (String.length acc) < Csv.field_limit)%N
  /\ (N.of_nat (String.length ((acc ++ chr c) ++ f)) <= Csv.field_limit)%N.
Proof.
  intros acc c f H; rewrite sapp_assoc; simpl.
  rewrite slength_app in H; simpl in H. rewrite slength_app; simpl. lia.
Qed.

Lemma needs_quote_cons : forall c f,
  Csv.needs_quote (String c f) = false ->
  Ascii.eqb c COMMA = false /\ Ascii.eqb c DQUOTE = false
  /\ Ascii.eqb c LF = false /\ Ascii.eqb c CR = false
  /\ Csv.needs_quote f = false.
Proof.
  simpl; intros c f H.
  repeat (apply orb_false_iff in H; destruct H as [H ?]); auto.
Qed.

Lemma sapp_nonempty_r : forall (a b : string), b <> "" -> a ++ b <> "".
Proof. destruct a; simpl; auto; discriminate. Qed.

Lemma DQUOTE_not_LF : DQUOTE <> LF.
Proof. discriminate. Qed.

Lemma COMMA_not_LF : COMMA <> LF.
Proof. discriminate. Qed.

Lemma eqb_DQUOTE_DQUOTE : Ascii.eqb DQUOTE DQUOTE = true.
Proof. reflexivity. Qed.
Lemma eqb_DQUOTE_COMMA : Ascii.eqb DQUOTE COMMA = false.
Proof. reflexivity. Qed.
Lemma eqb_DQUOTE_LF : Ascii.eqb DQUOTE LF = false.
Proof. reflexivity. Qed.
Lemma eqb_DQUOTE_CR : Ascii.eqb DQUOTE CR = false.
Proof. reflexivity. Qed.
Lemma eqb_COMMA_COMMA : Ascii.eqb COMMA COMMA = true.
Proof. reflexivity. Qed.
Lemma eqb_COMMA_DQUOTE : Ascii.eqb COMMA DQUOTE = false.
Proof. reflexivity. Qed.
Lemma eqb_COMMA_LF : Ascii.eqb COMMA LF = false.
Proof. reflexivity. Qed.
Lemma eqb_COMMA_CR : Ascii.eqb COMMA CR = false.
Proof. reflexivity. Qed.
Lemma eqb_LF_LF : Ascii.eqb LF LF = true.
Proof. reflexivity. Qed.
Lemma eqb_LF_DQUOTE : Ascii.eqb LF DQUOTE = false.
Proof. reflexivity. Qed.
Lemma eqb_LF_COMMA : Ascii.eqb LF COMMA = false.
Proof. reflexivity. Qed.

Create Rewrite HintDb csv_chars.
#[local] Hint Rewrite eqb_DQUOTE_DQUOTE eqb_DQUOTE_COMMA eqb_DQUOTE_LF
  eqb_DQUOTE_CR eqb_COMMA_COMMA eqb_COMMA_DQUOTE eqb_COMMA_LF eqb_COMMA_CR
  eqb_LF_LF eqb_LF_DQUOTE eqb_LF_COMMA : csv_chars.

(** One step of the parser on a reader in a known state. *)
Ltac csv_step :=
  unfold Csv.parse_process_char, Csv.start_field, Csv.set_state,
         Csv.parse_save_field, Csv.is_newline;
  cbn [Csv.state Csv.field Csv.fields];
  autorewrite with csv_chars;
  cbn [orb rbind rmap Csv.is_start_record].

(** Characters of an unquoted field. *)
Lemma plain_in_field : forall f acc flds tail,
  Csv.needs_quote f = false ->
  (N.of_nat (String.length (acc ++ f)) <= Csv.field_limit)%N ->
  tail <> "" ->
  Csv.reader_rows (Csv.mk_reader Csv.IN_FIELD acc flds)
                  (TextIO.readlines (f ++ tail))
  = Csv.reader_rows (Csv.mk_reader Csv.IN_FIELD (acc ++ f) flds)
                    (TextIO.readlines tail).
Proof.
  induction f as [|c f IH]; intros acc flds tail Hq Hlen Htail.
  - now rewrite sapp_nil_r.
  - destruct (needs_quote_cons _ _ Hq) as (Hcomma & Hdq & Hlf & Hcr & Hq').
    destruct (room_for_char _ _ _ Hlen) as [Hroom Hlen'].
    change (String c f ++ tail) with (String c (f ++ tail)).
    rewrite reader_rows_char;
      [| now apply Ascii.eqb_neq | now apply sapp_nonempty_r].
    csv_step; rewrite Hlf, Hcr, Hcomma; cbn [orb].
    rewrite parse_add_char_ok by assumption; cbn [rbind].
    rewrite IH by assumption.
    now rewrite sapp_assoc.
Qed.

(** Characters between the quotes of a quoted field; a line break among
    them ends a line of the file but not the field. *)
Lemma quoted_body : forall f acc flds tail,
  (N.of_nat (String.length (acc ++ f)) <= Csv.field_limit)%N ->
  tail <> "" ->
  Csv.reader_rows (Csv.mk_reader Csv.IN_QUOTED_FIELD acc flds)
                  (TextIO.readlines (Csv.double_quotes f ++ tail))
  = Csv.reader_rows (Csv.mk_reader Csv.IN_QUOTED_FIELD (acc ++ f) flds)
                    (TextIO.readlines tail).
Proof.
  induction f as [|c f IH]; intros acc flds tail Hlen Htail.
  - now rewrite sapp_nil_r.
  - destruct (room_for_char _ _ _ Hlen) as [Hroom Hlen'].
    assert (Hnext : Csv.double_quotes f ++ tail <> "")
      by now apply sapp_nonempty_r.
    cbn [Csv.double_quotes].
    destruct (Ascii.eqb_spec c DQUOTE) as [->|Hdq].
    + change (String DQUOTE (String DQUOTE (Csv.double_quotes f)) ++ tail)
        with (String DQUOTE (String DQUOTE (Csv.double_quotes f ++ tail))).
      rewrite reader_rows_char; [| apply DQUOTE_not_LF | discriminate].
      csv_step.
      rewrite reader_rows_char; [| apply DQUOTE_not_LF | assumption].
      csv_step.
      rewrite parse_add_char_ok by assumption; cbn [rbind rmap].
      unfold Csv.set_state; cbn [Csv.field Csv.fields].
      rewrite IH by assumption. now rewrite sapp_assoc.
    + change (String c (Csv.double_quotes f) ++ tail)
        with (String c (Csv.double_quotes f ++ tail)).
      apply Ascii.eqb_neq in Hdq.
      destruct (Ascii.eqb_spec c LF) as [->|Hlf].
      * rewrite reader_rows_newline.
        csv_step.
        rewrite parse_add_char_ok by assumption; cbn [rbind].
        csv_step.
        rewrite IH by assumption. now rewrite sapp_assoc.
      * rewrite reader_rows_char by assumption.
        csv_step; rewrite Hdq.
        rewrite parse_add_char_ok by assumption; cbn [rbind].
        rewrite IH by assumption. now rewrite sapp_assoc.
Qed.


(** The text of one field, read from the start of a field. *)
Lemma consume_field : forall st f flds tail,
  at_field_start st ->
  (N.of_nat (String.length f) <= Csv.field_limit)%N ->
  tail <> "" ->
  exists r,
    after_field f flds r
    /\ (st = Csv.START_FIELD -> Csv.state r <> Csv.START_RECORD)
    /\ Csv.reader_rows (Csv.mk_reader st "" flds)
                       (TextIO.readlines (Csv.join_append f ++ tail))
       = Csv.reader_rows r (TextIO.readlines tail).
Proof.
  intros st f flds tail Hst Hlen Htail; unfold Csv.join_append.
  destruct (Csv.needs_quote f) eqn:Hq.
  - (* quoted *)
    exists (Csv.mk_reader Csv.QUOTE_IN_QUOTED_FIELD f flds).
    split; [constructor|]; split; [discriminate|].
    rewrite !sapp_assoc.
    change (chr DQUOTE ++ Csv.double_quotes f ++ chr DQUOTE ++ tail)
      with (String DQUOTE (Csv.double_quotes f ++ String DQUOTE tail)).
    rewrite reader_rows_char;
      [| apply DQUOTE_not_LF | apply sapp_nonempty_r; discriminate].
    assert (Hopen : Csv.parse_process_char (Csv.mk_reader st "" flds)
                      (Some DQUOTE)
                    = Ok (Csv.mk_reader Csv.IN_QUOTED_FIELD "" flds)).
    { destruct Hst; subst st; csv_step; reflexivity. }
    rewrite Hopen; cbn [rbind].
    rewrite quoted_body; [| assumption | discriminate].
    rewrite reader_rows_char; [| apply DQUOTE_not_LF | assumption].
    csv_step; reflexivity.
  - destruct f as [|c f].
    + (* empty, unquoted *)
      exists (Csv.mk_reader st "" flds); split; [|split].
      * destruct Hst; subst st; constructor; auto.
      * intros ->; discriminate.
      * reflexivity.
    + (* unquoted *)
      exists (Csv.mk_reader Csv.IN_FIELD (String c f) flds).
      split; [constructor|]; split; [discriminate|].
      destruct (needs_quote_cons _ _ Hq) as (Hcomma & Hdq & Hlf & Hcr & Hq').
      change (String c f ++ tail) with (String c (f ++ tail)).
      rewrite reader_rows_char;
        [| now apply Ascii.eqb_neq | now apply sapp_nonempty_r].
      assert (Hfirst : Csv.parse_process_char (Csv.mk_reader st "" flds)
                         (Some c)
                       = Ok (Csv.mk_reader Csv.IN_FIELD (chr c) flds)).
      { destruct Hst; subst st; csv_step; rewrite ?Hlf, ?Hcr, ?Hdq, ?Hcomma;
          cbn [orb]; rewrite ?Hdq, ?Hcomma;
          (rewrite parse_add_char_ok by (cbn; unfold Csv.field_limit; lia));
          reflexivity. }
      rewrite Hfirst; cbn [rbind].
      rewrite plain_in_field; auto.
Qed.

(** The delimiter after a field. *)
Lemma comma_after : forall f flds r tail,
  after_field f flds r ->
  tail <> "" ->
  Csv.reader_rows r (TextIO.readlines (String COMMA tail))
  = Csv.reader_rows (Csv.mk_reader Csv.START_FIELD "" (flds ++ [f])%list)
                    (TextIO.readlines tail).
Proof.
  intros f flds r tail Hr Htail.
  rewrite reader_rows_char; [| apply COMMA_not_LF | assumption].
  destruct Hr; subst; csv_step; reflexivity.
Qed.

(** The end of the line after the last field of a row. *)
Lemma newline_after : forall f flds r tail,
  after_field f flds r ->
  Csv.state r <> Csv.START_RECORD ->
  Csv.reader_rows r (TextIO.readlines (String LF tail))
  = rmap (cons (flds ++ [f])%list)
         (Csv.reader_rows Csv.parse_reset (TextIO.readlines tail)).
Proof.
  intros f flds r tail Hr Hst.
  rewrite reader_rows_newline.
  destruct Hr; subst; csv_step; try reflexivity.
  now contradiction Hst.
Qed.


(** The fields of a row after its first delimiter. *)
Lemma rest_of_row : forall cells flds tail,
  cells <> [] ->
  Forall short cells ->
  Csv.reader_rows (Csv.mk_reader Csv.START_FIELD "" flds)
    (TextIO.readlines
       (join (chr COMMA) (map Csv.join_append cells) ++ String LF tail))
  = rmap (cons (flds ++ cells)%list)
         (Csv.reader_rows Csv.parse_reset (TextIO.readlines tail)).
Proof.
  induction cells as [|f cells IH]; intros flds tail Hne Hshort;
    [congruence|].
  inversion Hshort as [|? ? Hf Hcells]; subst.
  destruct cells as [|g cells].
  - cbn [map join].
    destruct (consume_field Csv.START_FIELD f flds (String LF tail))
      as (r & Hr & Hst & ->); [right; reflexivity | assumption | discriminate |].
    apply newline_after; auto.
  - change (join (chr COMMA) (map Csv.join_append (f :: g :: cells)))
      with (Csv.join_append f
            ++ chr COMMA ++ join (chr COMMA) (map Csv.join_append (g :: cells))).
    rewrite !sapp_assoc.
    change (chr COMMA ++ ?x) with (String COMMA x).
    destruct (consume_field Csv.START_FIELD f flds
                (String COMMA
                   (join (chr COMMA) (map Csv.join_append (g :: cells))
                    ++ String LF tail)))
      as (r & Hr & _ & ->); [right; reflexivity | assumption | discriminate |].
    rewrite (comma_after _ _ _ _ Hr);
      [| apply sapp_nonempty_r; discriminate].
    rewrite IH; [| discriminate | assumption].
    now rewrite <- app_assoc.
Qed.

Lemma join_append_empty : forall f, Csv.join_append f = "" -> f = "".
Proof.
  unfold Csv.join_append; intro f.
  destruct (Csv.needs_quote f); [discriminate | auto].
Qed.

(** The record text of a row with a field is empty for one row only. *)
Lemma row_body_cases : forall cells,
  cells <> [] ->
  (cells = [""] /\ row_body cells = chr DQUOTE ++ chr DQUOTE)
  \/ (cells <> [""]
      /\ row_body cells = join (chr COMMA) (map Csv.join_append cells)).
Proof.
  intros [|f [|g cells]] Hne; [congruence| |].
  - unfold row_body; cbn [map join List.length Nat.ltb Nat.leb andb].
    destruct (String.eqb_spec (Csv.join_append f) "") as [E|E].
    + left; apply join_append_empty in E; subst; auto.
    + right; split; auto. intro H; inversion H; subst; auto.
  - right; split; [discriminate|].
    unfold row_body; cbn [List.length Nat.ltb Nat.leb andb map].
    change (join (chr COMMA) (?a :: ?b :: ?l))
      with (a ++ chr COMMA ++ join (chr COMMA) (b :: l)).
    destruct (String.eqb_spec
                (Csv.join_append f ++ chr COMMA
                 ++ join (chr COMMA) (Csv.join_append g :: map Csv.join_append cells))
                "") as [E|E]; auto.
    exfalso; revert E; apply sapp_nonempty_r; discriminate.
Qed.

(** A written row, read back. *)
Lemma whole_row : forall cells tail,
  cells <> [] ->
  Forall short cells ->
  Csv.reader_rows Csv.parse_reset
    (TextIO.readlines (row_body cells ++ String LF tail))
  = rmap (cons cells)
         (Csv.reader_rows Csv.parse_reset (TextIO.readlines tail)).
Proof.
  intros cells tail Hne Hshort.
  destruct (row_body_cases cells Hne) as [[-> ->] | [Hcells ->]].
  - change ((chr DQUOTE ++ chr DQUOTE) ++ String LF tail)
      with (String DQUOTE (String DQUOTE (String LF tail))).
    rewrite reader_rows_char; [| apply DQUOTE_not_LF | discriminate].
    unfold Csv.parse_reset; csv_step.
    rewrite reader_rows_char; [| apply DQUOTE_not_LF | discriminate].
    csv_step.
    rewrite reader_rows_newline; csv_step. reflexivity.
  - destruct cells as [|f [|g cells]]; [congruence| |];
      inversion Hshort as [|? ? Hf Hrest]; subst.
    + cbn [map join]; unfold Csv.parse_reset at 1.
      destruct (consume_field Csv.START_RECORD f [] (String LF tail))
        as (r & Hr & _ & ->); [left; reflexivity | assumption | discriminate |].
      apply (newline_after f [] r tail Hr).
      destruct Hr; try discriminate. subst; congruence.
    + change (join (chr COMMA) (map Csv.join_append (f :: g :: cells)))
        with (Csv.join_append f
              ++ chr COMMA
              ++ join (chr COMMA) (map Csv.join_append (g :: cells))).
      rewrite !sapp_assoc; unfold Csv.parse_reset at 1.
      change (chr COMMA ++ ?x) with (String COMMA x).
      destruct (consume_field Csv.START_RECORD f []
                  (String COMMA
                     (join (chr COMMA) (map Csv.join_append (g :: cells))
                      ++ String LF tail)))
        as (r & Hr & _ & ->); [left; reflexivity | assumption | discriminate |].
      rewrite (comma_after _ _ _ _ Hr);
        [| apply sapp_nonempty_r; discriminate].
      rewrite rest_of_row; [reflexivity | discriminate | assumption].
Qed.


(** *** A written file, read back *)

Lemma mentions_double_quotes : forall f,
  mentions CR (Csv.double_quotes f) = mentions CR f.
Proof.
  induction f as [|c f IH]; simpl; auto.
  destruct (Ascii.eqb_spec c DQUOTE) as [->|Hc]; simpl; rewrite IH; auto.
Qed.

Lemma mentions_join_append : forall f,
  mentions CR f = false -> mentions CR (Csv.join_append f) = false.
Proof.
  intros f H; unfold Csv.join_append.
  destruct (Csv.needs_quote f); auto.
  rewrite !mentions_app, mentions_double_quotes, H; reflexivity.
Qed.

Lemma mentions_join : forall cells,
  Forall (fun f => mentions CR f = false) cells ->
  mentions CR (join (chr COMMA) (map Csv.join_append cells)) = false.
Proof.
  induction 1 as [|f cells Hf Hcells IH]; auto.
  destruct cells as [|g cells]; cbn [map join].
  - now apply mentions_join_append.
  - rewrite !mentions_app, mentions_join_append by assumption.
    cbn [map join] in IH; rewrite IH; reflexivity.
Qed.

Lemma mentions_row_body : forall cells,
  Forall (fun f => mentions CR f = false) cells ->
  mentions CR (row_body cells) = false.
Proof.
  intros cells H; unfold row_body.
  destruct ((0 <? List.length cells)%nat && _); auto using mentions_join.
Qed.

Lemma writerow_body : forall cells,
  Csv.writerow cells = row_body cells ++ String CR (String LF "").
Proof. reflexivity. Qed.

Lemma reader_written_from : forall rows,
  Forall safe_row rows ->
  Csv.reader_rows Csv.parse_reset
    (TextIO.readlines (TextIO.universal_newlines (rows_body rows)))
  = Ok rows.
Proof.
  induction 1 as [|cells rows [Hne Hsafe] Hrows IH]; [reflexivity|].
  cbn [rows_body fold_right]; fold (rows_body rows).
  rewrite writerow_body, sapp_assoc.
  change (String CR (String LF "") ++ rows_body rows)
    with (String CR (String LF (rows_body rows))).
  rewrite universal_newlines_app, universal_newlines_crlf.
  - rewrite whole_row, IH; auto.
    eapply Forall_impl; [|exact Hsafe]. now intros f [_ Hf].
  - apply mentions_row_body.
    eapply Forall_impl; [|exact Hsafe]. now intros f [Hf _].
Qed.

(** What [csv.writer] wrote, [csv.reader] gives back through a file in
    universal newlines mode. *)
Lemma reader_written : forall rows,
  Forall safe_row rows ->
  Csv.reader (TextIO.readlines (TextIO.universal_newlines (rows_body rows)))
  = Ok rows.
Proof. exact reader_written_from. Qed.


(** *** Records through the file *)

Lemma existsb_key_in : forall k ks, In k ks -> existsb (key_eqb k) ks = true.
Proof.
  intros k ks H; apply existsb_exists; exists k; auto using key_eqb_refl.
Qed.

Lemma dict_get_in : forall k v d, dict_get k d = Some v -> In (k, v) d.
Proof.
  induction d as [|[k' v'] d IH]; simpl; [discriminate|].
  destruct (key_eqb k k') eqn:E; intro H.
  - apply key_eqb_eq in E; inversion H; subst; auto.
  - auto.
Qed.

Lemma dict_get_not_in : forall k d, ~ In k (keys d) -> dict_get k d = None.
Proof.
  induction d as [|[k' v'] d IH]; simpl; auto; intro H.
  destruct (key_eqb k k') eqn:E; [apply key_eqb_eq in E; subst; tauto|].
  apply IH; tauto.
Qed.

Lemma dict_get_in_keys : forall k d,
  In k (keys d) -> exists v, dict_get k d = Some v.
Proof.
  induction d as [|[k' v'] d IH]; simpl; [tauto|]; intro H.
  destruct (key_eqb k k') eqn:E; [eauto|].
  apply IH; destruct H as [H|H]; auto.
  subst; rewrite key_eqb_refl in E; discriminate.
Qed.

Lemma dict_get_tabulate : forall (g : key -> value) k ks,
  dict_get k (map (fun k => (k, g k)) ks)
  = if existsb (key_eqb k) ks then Some (g k) else None.
Proof.
  induction ks as [|k' ks IH]; simpl; auto.
  destruct (key_eqb k k') eqn:E; simpl; auto.
  apply key_eqb_eq in E; now subst.
Qed.

Lemma csv_safe_empty : csv_safe "".
Proof. split; [reflexivity | unfold Csv.field_limit; simpl; lia]. Qed.

Lemma str_fields_value : forall d k v,
  str_fields d -> dict_get k d = Some v -> exists s, v = VStr s /\ csv_safe s.
Proof.
  intros d k v Hd Hget; apply dict_get_in in Hget.
  unfold str_fields in Hd; rewrite Forall_forall in Hd.
  destruct (Hd _ Hget) as (k0 & s & E & _ & Hs); inversion E; eauto.
Qed.

Lemma str_fields_key : forall d k,
  str_fields d -> In k (keys d) -> exists s, k = KStr s /\ csv_safe s.
Proof.
  intros d k Hd Hin; apply in_map_iff in Hin; destruct Hin as ([k' v] & E & Hin).
  unfold str_fields in Hd; rewrite Forall_forall in Hd.
  destruct (Hd _ Hin) as (k0 & s & E' & Hk & _); inversion E'; subst.
  simpl; eauto.
Qed.

Lemma cell_of_safe : forall d k, str_fields d -> csv_safe (cell_of d k).
Proof.
  intros d k Hd; unfold cell_of.
  destruct (dict_get k d) as [v|] eqn:E; [|apply csv_safe_empty].
  destruct (str_fields_value _ _ _ Hd E) as (s & -> & Hs); auto.
Qed.

Lemma cell_text_cell_of : forall py_repr d k,
  str_fields d ->
  Csv.cell_text py_repr (match dict_get k d with
                         | Some v => v
                         | None => VStr ""
                         end)
  = cell_of d k.
Proof.
  intros py_repr d k Hd; unfold cell_of.
  destruct (dict_get k d) as [v|] eqn:E; auto.
  destruct (str_fields_value _ _ _ Hd E) as (s & -> & _); auto.
Qed.

Lemma rows_text_body : forall py_repr fieldnames data,
  Forall str_fields data ->
  rows_text py_repr fieldnames data
  = rows_body (map (fun d => map (cell_of d) fieldnames) data).
Proof.
  induction 1 as [|d data Hd Hdata IH]; simpl; auto.
  rewrite IH; f_equal; unfold row_text; f_equal.
  apply map_ext; intro k; now apply cell_text_cell_of.
Qed.

Lemma zip_tabulate : forall {A B} (g : A -> B) (ks : list A),
  zip ks (map g ks) = map (fun k => (k, g k)) ks.
Proof. induction ks; simpl; congruence. Qed.

Lemma dict_of_from : forall kvs d,
  NoDup (keys d ++ map fst kvs) ->
  fold_left (fun d kv => dict_set (fst kv) (snd kv) d) kvs d = (d ++ kvs)%list.
Proof.
  induction kvs as [|[k v] kvs IH]; simpl; intros d Hnd.
  - now rewrite app_nil_r.
  - rewrite keys_dict_set_absent.
    + rewrite IH; [now rewrite <- app_assoc|].
      unfold keys in *; rewrite map_app; simpl.
      now rewrite <- app_assoc.
    + apply NoDup_remove_2 in Hnd; intro H; apply Hnd, in_or_app; auto.
Qed.

Lemma dict_of_nodup : forall kvs, NoDup (map fst kvs) -> dict_of kvs = kvs.
Proof. intros kvs H; unfold dict_of; now rewrite dict_of_from. Qed.

Lemma KStr_key_text : forall ks,
  Forall (fun k => exists s, k = KStr s) ks -> map KStr (map Csv.key_text ks) = ks.
Proof.
  induction 1 as [|k ks [s ->] _ IH]; simpl; congruence.
Qed.

(** A row written under the header comes back as [under_header]. *)
Lemma row_dict_under_header : forall fieldnames d,
  NoDup fieldnames ->
  Forall (fun k => exists s, k = KStr s) fieldnames ->
  Csv.row_dict (map Csv.key_text fieldnames) (map (cell_of d) fieldnames)
  = under_header fieldnames d.
Proof.
  intros fieldnames d Hnd Hstr; unfold Csv.row_dict, under_header.
  rewrite !length_map, Nat.ltb_irrefl, skipn_all2 by (rewrite length_map; auto).
  cbn [fold_left]; rewrite KStr_key_text by assumption.
  rewrite map_map, (zip_tabulate (fun k => VStr (cell_of d k))).
  apply dict_of_nodup; now rewrite map_map, map_id.
Qed.

Lemma under_header_eq : forall first d,
  same_fields first d -> str_fields d ->
  dict_eq d (under_header (keys first) d).
Proof.
  intros first d Hsame Hstr k; unfold under_header.
  rewrite dict_get_tabulate.
  destruct (existsb (key_eqb k) (keys first)) eqn:E.
  - apply existsb_exists in E; destruct E as (k' & Hin & E).
    apply key_eqb_eq in E; subst k'.
    apply Hsame, dict_get_in_keys in Hin; destruct Hin as [v Hv].
    unfold cell_of; rewrite Hv.
    destruct (str_fields_value _ _ _ Hstr Hv) as (s & -> & _); auto.
  - apply dict_get_not_in; intro Hin; apply Hsame in Hin.
    apply existsb_key_in in Hin; congruence.
Qed.

Lemma under_header_same_order : forall d,
  dict_wf d -> str_fields d -> under_header (keys d) d = d.
Proof.
  unfold under_header, dict_wf, keys.
  induction d as [|[k v] d IH]; simpl; intros Hnd Hstr; auto.
  inversion Hnd as [|? ? Hk Hd]; inversion Hstr as [|? ? Hkv Hrest]; subst.
  destruct Hkv as (k0 & s & E & _); inversion E; subst.
  unfold cell_of at 1; simpl; rewrite String.eqb_refl; f_equal.
  rewrite <- (IH Hd Hrest) at 2.
  apply map_ext_in; intros k Hin; f_equal; f_equal.
  unfold cell_of; simpl.
  destruct (key_eqb k (KStr k0)) eqn:Ek; auto.
  apply key_eqb_eq in Ek; subst; contradiction.
Qed.


Lemma write_csv_ok : forall py_repr first rest path w,
  denied w path = false ->
  forallb (in_fieldnames (keys first)) (first :: rest) = true ->
  write_csv py_repr (first :: rest) path w
  = (Ok tt,
     store path (Csv.writeheader (keys first)
                 ++ rows_text py_repr (keys first) (first :: rest))
       (store path "" (log_open (OpenWrite path) w))).
Proof.
  intros py_repr first rest path w Hd Hall.
  unfold write_csv, bind, open_write, set_iteration; rewrite Hd.
  now rewrite (writerows_ok _ _ _ _ Hall).
Qed.

Lemma read_csv_stored : forall path text w rows,
  denied w path = false ->
  Csv.reader (TextIO.readlines (TextIO.universal_newlines text)) = Ok rows ->
  fst (read_csv path (store path text w)) = Ok (Csv.DictReader rows).
Proof.
  intros path text w rows Hd Hrows.
  unfold read_csv, bind, open_read; cbn [denied store fs].
  rewrite Hd, String.eqb_refl; cbn [orb]; now rewrite Hrows.
Qed.

Lemma uniform_in_fieldnames : forall first data,
  Forall (uniform_record first) data ->
  forallb (in_fieldnames (keys first)) data = true.
Proof.
  intros first data H; apply forallb_forall; intros d Hin.
  rewrite Forall_forall in H; destruct (H _ Hin) as (_ & Hsame & _).
  apply forallb_forall; intros k Hk; apply existsb_key_in, Hsame, Hk.
Qed.

Lemma filter_not_blank : forall (fieldnames : list key) (data : Dataset),
  fieldnames <> [] ->
  filter (fun r => negb (Csv.is_blank r))
         (map (fun d => map (cell_of d) fieldnames) data)
  = map (fun d => map (cell_of d) fieldnames) data.
Proof.
  intros fieldnames data Hne; induction data as [|d data IH]; simpl; auto.
  destruct fieldnames; [congruence|]; simpl in *; now rewrite IH.
Qed.

(** C6, as the code has it. A dataset with at least one record, whose
    records all have the first record's keys, at least one of them, with
    keys and values that are strings without a carriage return and within
    the reader's field limit, written by [write_csv] to a path that can be
    opened and read again by [read_csv]: the write succeeds, and the read
    returns, in the same order, each record under the header's key order,
    equal as a dict to the record written; records that all have the
    header's key order come back identical. *)
Theorem csv_round_trip :
  forall (py_repr : value -> string) (first : dict) (rest : Dataset)
         (path : string) (w : World),
    denied w path = false ->
    keys first <> [] ->
    Forall (uniform_record first) (first :: rest) ->
    let data := first :: rest in
    let written := write_csv py_repr data path w in
    let back := read_csv path (snd written) in
    fst written = Ok tt
    /\ fst back = Ok (map (under_header (keys first)) data)
    /\ Forall2 dict_eq data (map (under_header (keys first)) data)
    /\ (Forall (fun d => keys d = keys first) data -> fst back = Ok data).
Proof.
  intros py_repr first rest path w Hd Hne Huni data written back.
  assert (Hstr : Forall str_fields data).
  { eapply Forall_impl; [|exact Huni]. now intros d (_ & _ & H). }
  assert (Hfirst : uniform_record first first) by now inversion Huni.
  destruct Hfirst as (Hwf & _ & Hstr1).
  assert (Hkeys : Forall (fun k => exists s, k = KStr s /\ csv_safe s)
                         (keys first)).
  { apply Forall_forall; intros k Hk; now apply str_fields_key with first. }
  assert (Hback : fst back = Ok (map (under_header (keys first)) data)).
  { subst back written data.
    rewrite write_csv_ok by auto using uniform_in_fieldnames.
    cbn [snd]; rewrite rows_text_body by assumption.
    change (Csv.writeheader (keys first) ++ rows_body ?rows)
      with (rows_body (map Csv.key_text (keys first) :: rows)).
    erewrite read_csv_stored; [| exact Hd | apply reader_written].
    - cbn [Csv.DictReader]; rewrite filter_not_blank by assumption.
      rewrite map_map; f_equal; apply map_ext; intro d.
      apply row_dict_under_header; auto.
      eapply Forall_impl; [|exact Hkeys]. intros k (s & E & _); eauto.
    - constructor.
      + split.
        * destruct (keys first); [congruence | discriminate].
        * apply Forall_map; eapply Forall_impl; [|exact Hkeys].
          now intros k (s & -> & Hs).
      + apply Forall_map, Forall_forall; intros d Hin; split.
        * destruct (keys first); [congruence | discriminate].
        * apply Forall_map, Forall_forall; intros k _.
          apply cell_of_safe; rewrite Forall_forall in Hstr; auto. }
  repeat split; auto.
  - subst written data; now rewrite write_csv_ok
      by auto using uniform_in_fieldnames.
  - clear Hback Hstr; subst written back data; revert Huni.
    generalize (first :: rest) as l.
    induction 1 as [|d l (_ & Hsame & Hs) _ IH]; constructor;
      auto using under_header_eq.
  - intro Horder; rewrite Hback; f_equal.
    rewrite <- (map_id data) at 2; apply map_ext_in; intros d Hin.
    rewrite Forall_forall in Horder, Huni.
    rewrite <- (Horder _ Hin); destruct (Huni _ Hin) as (Hwfd & _ & Hsd).
    now apply under_header_same_order.
Qed.


Lemma csv_round_trip_witness :
  denied (sample_world []) "out.csv" = false
  /\ there_and_back awkward = Ok awkward_back
  /\ Forall2 dict_eq awkward awkward_back.
Proof.
  assert (Hsafe : forall s, (String.length s <=? 100)%nat = true ->
                            mentions CR s = false -> csv_safe s).
  { intros s Hlen Hcr; split; auto.
    apply Nat.leb_le in Hlen; unfold Csv.field_limit; lia. }
  assert (Huni : Forall (uniform_record
                           [(KStr "name", VStr ("Ann, " ++ q "A"));
                            (KStr "note", VStr ("one" ++ nl ++ "two"))])
                        awkward).
  { unfold awkward, uniform_record, dict_wf, same_fields, str_fields.
    repeat apply Forall_cons; try apply Forall_nil; (split; [|split]);
      try (intro k; simpl; tauto);
      try (repeat apply Forall_cons; try apply Forall_nil; cbv beta;
           do 2 eexists; (split; [reflexivity|]); split; apply Hsafe;
           reflexivity);
      clear Hsafe; simpl; repeat apply NoDup_cons; try apply NoDup_nil;
      simpl; intuition discriminate. }
  split; [reflexivity|].
  destruct (csv_round_trip sample_repr
              [(KStr "name", VStr ("Ann, " ++ q "A"));
               (KStr "note", VStr ("one" ++ nl ++ "two"))]
              [[(KStr "note", VStr ""); (KStr "name", VStr "Bob")]]
              "out.csv" (sample_world []) eq_refl
              ltac:(discriminate) Huni)
    as (_ & Hback & Heq & _).
  split; [exact Hback | exact Heq].
Defined.

(** C6, as the specification words it, fails. The empty dataset is not
    written at all, so there is no file to read; a record without fields is
    written as a blank line, which the reader skips; a number comes back as
    its text. *)
Lemma csv_round_trip_fails :
  there_and_back [] = Err (FileNotFoundError "out.csv")
  /\ there_and_back [[]] = Ok []
  /\ there_and_back [[(KStr "n", VInt 1)]] = Ok [[(KStr "n", VStr "1")]].
Proof. repeat split. Qed.

(** A carriage return inside a cell comes back as a line feed: the file is
    written with [newline=''] and read without it. *)
Example carriage_return_lost :
  there_and_back [[(KStr "a", VStr ("x" ++ chr CR ++ "y"))]]
  = Ok [[(KStr "a", VStr ("x" ++ chr LF ++ "y"))]].
Proof. reflexivity. Qed.

(** An unquoted field past the limit stops the reader. *)
Lemma overlong_in_field : forall f acc flds tail,
  Csv.needs_quote f = false ->
  tail <> "" ->
  (N.of_nat (String.length acc) <= Csv.field_limit)%N ->
  (Csv.field_limit < N.of_nat (String.length (acc ++ f)))%N ->
  Csv.reader_rows (Csv.mk_reader Csv.IN_FIELD acc flds)
                  (TextIO.readlines (f ++ tail))
  = Err Csv.FieldTooLarge.
Proof.
  induction f as [|c f IH]; intros acc flds tail Hq Htail Hacc Hlong.
  - rewrite sapp_nil_r in Hlong; lia.
  - destruct (needs_quote_cons _ _ Hq) as (Hcomma & Hdq & Hlf & Hcr & Hq').
    change (String c f ++ tail) with (String c (f ++ tail)).
    rewrite reader_rows_char;
      [| now apply Ascii.eqb_neq | now apply sapp_nonempty_r].
    csv_step; rewrite Hlf, Hcr, Hcomma; cbn [orb].
    destruct (N.eq_dec (N.of_nat (String.length acc)) Csv.field_limit) as [E|E].
    + unfold Csv.parse_add_char; cbn [Csv.field].
      rewrite E, N.leb_refl; reflexivity.
    + rewrite parse_add_char_ok by lia; cbn [rbind].
      apply IH; auto.
      * rewrite slength_app; simpl; lia.
      * now rewrite sapp_assoc.
Qed.

Lemma field_limit_enforced : forall c f tail,
  Csv.needs_quote (String c f) = false ->
  (Csv.field_limit < N.of_nat (String.length (String c f)))%N ->
  Csv.reader (TextIO.readlines (String c f ++ String LF tail))
  = Err Csv.FieldTooLarge.
Proof.
  intros c f tail Hq Hlong.
  destruct (needs_quote_cons _ _ Hq) as (Hcomma & Hdq & Hlf & Hcr & Hq').
  unfold Csv.reader.
  change (String c f ++ String LF tail) with (String c (f ++ String LF tail)).
  rewrite reader_rows_char;
    [| now apply Ascii.eqb_neq | apply sapp_nonempty_r; discriminate].
  unfold Csv.parse_reset; csv_step; rewrite Hlf, Hcr; cbn [orb].
  rewrite Hdq, Hcomma.
  rewrite parse_add_char_ok by (cbn; unfold Csv.field_limit; lia).
  cbn [rmap rbind]; unfold Csv.set_state; cbn [Csv.field Csv.fields].
  apply overlong_in_field; auto; discriminate.
Qed.

(* ================================================================== *)
(** ** The effects of one run *)

Lemma read_csv_world : forall path w,
  snd (read_csv path w) = log_open (OpenRead path) w.
Proof.
  intros path w; unfold read_csv, bind, open_read.
  destruct (denied w path); [reflexivity|].
  destruct (fs w path); [|reflexivity].
  destruct (Csv.reader _); reflexivity.
Qed.

Lemma read_json_world : forall json_load path w,
  snd (read_json json_load path w) = log_open (OpenRead path) w.
Proof.
  intros json_load path w; unfold read_json, bind, open_read.
  destruct (denied w path); [reflexivity|].
  destruct (fs w path); [|reflexivity].
  destruct (json_load _); reflexivity.
Qed.

Lemma process_data_world : forall data operations w,
  snd (process_data data operations w)
  = if str_in "add_timestamp" operations then snd (datetime_now w) else w.
Proof.
  intros data operations w; unfold process_data.
  destruct (str_in "add_timestamp" operations); reflexivity.
Qed.

Lemma store_elsewhere : forall path text w p,
  p <> path -> same_file w p path = false ->
  fs (store path text w) p = fs w p.
Proof.
  intros path text w p Hp Hs; cbn [fs store].
  apply String.eqb_neq in Hp; now rewrite Hp, Hs.
Qed.

Lemma store_here : forall path text w,
  fs (store path text w) path = Some text.
Proof. intros; cbn [fs store]; now rewrite String.eqb_refl. Qed.

Lemma write_csv_effect : forall py_repr data path w,
  data <> [] -> write_effect path w (snd (write_csv py_repr data path w)).
Proof.
  intros py_repr [|first rest] path w Hne; [congruence|].
  unfold write_csv, bind, open_write, set_iteration, write, raise, ret.
  destruct (denied w path).
  - repeat split; auto.
  - destruct (Csv.writerows py_repr _ (keys first) (first :: rest))
      as [rows [wrong|]];
      repeat split; auto; intros p Hp Hs; apply String.eqb_neq in Hp;
      simpl; now rewrite Hp, Hs.
Qed.

Lemma write_json_effect : forall py_repr data path w,
  write_effect path w (snd (write_json py_repr data path w)).
Proof.
  intros py_repr data path w; unfold write_json, bind, open_write, write.
  destruct (denied w path); repeat split; auto.
  intros p Hp Hs; apply String.eqb_neq in Hp; simpl; now rewrite Hp, Hs.
Qed.

(** The ways a run of [main] can go. *)
Lemma main_cases : forall json_load py_repr args w,
  let run := main json_load py_repr args w in
  let w1 := log_open (OpenRead (input args)) w in
  (input_ext args <> ".csv" /\ input_ext args <> ".json"
   /\ run = (1%Z, print_stderr (UnsupportedInputType (input_ext args)) w))
  \/ ((input_ext args = ".csv" \/ input_ext args = ".json")
      /\ exists e, run = (1%Z, print_stderr (ReadFailed e) w1))
  \/ (exists data,
        input_reads json_load args w data
        /\ let pd := process_data data (operations_of args) w1 in
           (output_ext args <> ".csv" /\ output_ext args <> ".json"
            /\ run = (1%Z, print_stderr (UnsupportedOutputType (output_ext args))
                             (snd pd)))
           \/ ((output_ext args = ".csv" \/ output_ext args = ".json")
               /\ ((exists e w3,
                      run = (1%Z, print_stderr (WriteFailed e) w3)
                      /\ write_effect (output args) (snd pd) w3)
                   \/ (output_ext args = ".csv" /\ fst pd = []
                       /\ run = (0%Z, snd pd))
                   \/ (exists w3,
                         run = (0%Z, w3)
                         /\ write_effect (output args) (snd pd) w3)))).
Proof.
  intros json_load py_repr args w run w1; subst run; unfold main.
  fold (input_ext args); fold (output_ext args).
  assert (Hread : forall r : result exn Dataset * World,
            snd r = w1 ->
            (forall data, fst r = Ok data -> input_reads json_load args w data) ->
            let res :=
              match r with
              | (Err e, w1) => (1%Z, print_stderr (ReadFailed e) w1)
              | (Ok data, w1) =>
                  let '(processed_data, w2) :=
                    process_data data (operations_of args) w1 in
                  match
                    (if String.eqb (output_ext args) ".csv"
                     then Some (write_csv py_repr processed_data (output args) w2)
                     else if String.eqb (output_ext args) ".json"
                     then Some (write_json py_repr processed_data (output args) w2)
                     else None)
                  with
                  | None => (1%Z, print_stderr
                                    (UnsupportedOutputType (output_ext args)) w2)
                  | Some (Err e, w3) => (1%Z, print_stderr (WriteFailed e) w3)
                  | Some (Ok _, w3) => (0%Z, w3)
                  end
              end in
            (exists e, res = (1%Z, print_stderr (ReadFailed e) w1))
            \/ (exists data,
                  input_reads json_load args w data
                  /\ let pd := process_data data (operations_of args) w1 in
                     (output_ext args <> ".csv" /\ output_ext args <> ".json"
                      /\ res = (1%Z, print_stderr
                                       (UnsupportedOutputType (output_ext args))
                                       (snd pd)))
                     \/ ((output_ext args = ".csv" \/ output_ext args = ".json")
                         /\ ((exists e w3,
                                res = (1%Z, print_stderr (WriteFailed e) w3)
                                /\ write_effect (output args) (snd pd) w3)
                             \/ (output_ext args = ".csv" /\ fst pd = []
                                 /\ res = (0%Z, snd pd))
                             \/ (exists w3,
                                   res = (0%Z, w3)
                                   /\ write_effect (output args) (snd pd) w3))))).
  { intros [[data|e] w1'] Hw Hdata; cbn [snd] in Hw; subst w1'; cbn zeta.
    2: { left; eauto. }
    right; exists data; split; [now apply Hdata|].
    destruct (process_data data (operations_of args) w1) as [processed w2].
    cbn [fst snd].
    destruct (String.eqb_spec (output_ext args) ".csv") as [Ecsv|Ecsv].
    - right; split; [now left|].
      destruct processed as [|first rest].
      + right; left; auto.
      + pose proof (write_csv_effect py_repr (first :: rest) (output args) w2
                      ltac:(discriminate)) as Heff.
        destruct (write_csv py_repr (first :: rest) (output args) w2)
          as [[u|e] w3]; cbn [snd] in Heff.
        * right; right; eauto.
        * left; eauto.
    - destruct (String.eqb_spec (output_ext args) ".json") as [Ejson|Ejson].
      + right; split; [now right|].
        pose proof (write_json_effect py_repr processed (output args) w2)
          as Heff.
        destruct (write_json py_repr processed (output args) w2)
          as [[u|e] w3]; cbn [snd] in Heff.
        * right; right; eauto.
        * left; eauto.
      + left; auto. }
  destruct (String.eqb_spec (input_ext args) ".csv") as [Ecsv|Ecsv].
  - destruct (Hread (read_csv (input args) w)) as [H|H];
      [apply read_csv_world | intros data Hd; left; auto | | ]; auto.
  - destruct (String.eqb_spec (input_ext args) ".json") as [Ejson|Ejson].
    + destruct (Hread (read_json json_load (input args) w)) as [H|H];
        [apply read_json_world | intros data Hd; right; auto | | ]; auto.
    + left; auto.
Qed.

Lemma process_data_frame : forall data operations w,
  let w' := snd (process_data data operations w) in
  fs w' = fs w /\ denied w' = denied w /\ clock w' = clock w
  /\ stderr w' = stderr w /\ io_log w' = io_log w
  /\ clock_reads w'
     = if str_in "add_timestamp" operations then S (clock_reads w)
       else clock_reads w.
Proof.
  intros data operations w; cbn zeta; rewrite process_data_world.
  destruct (str_in "add_timestamp" operations); repeat split.
Qed.

Lemma process_data_same_file : forall data operations w,
  same_file (snd (process_data data operations w)) = same_file w.
Proof.
  intros data operations w; rewrite process_data_world.
  destruct (str_in "add_timestamp" operations); reflexivity.
Qed.

Lemma str_in_operations_of : forall args,
  str_in "add_timestamp" (operations_of args) = arg_add_timestamp args
  /\ str_in "filter_empty" (operations_of args) = arg_filter_empty args.
Proof. intros [i o [|] [|]]; split; reflexivity. Qed.

(** X1. Once the command line has been parsed, and with a JSON input that
    is an array of objects, a run ends with status 0 or 1. With status 0
    nothing was printed to the error stream; with status 1 exactly one
    line was. *)
Theorem main_status_and_messages :
  forall (json_load : string -> option Dataset) (py_repr : value -> string)
         (args : Args) (w : World),
    let run := main json_load py_repr args w in
    (fst run = 0%Z /\ stderr (snd run) = stderr w)
    \/ (fst run = 1%Z
        /\ exists m, stderr (snd run) = (stderr w ++ [m])%list).
Proof.
  intros json_load py_repr args w run.
  destruct (main_cases json_load py_repr args w)
    as [(_ & _ & E) | [(_ & e & E) | (data & _ & H)]]; fold run in E || idtac.
  - right; rewrite E; cbn; eauto.
  - right; rewrite E; cbn; eauto.
  - cbn zeta in H; fold run in H.
    destruct (process_data_frame data (operations_of args)
                (log_open (OpenRead (input args)) w))
      as (_ & _ & _ & Herr & _).
    cbn [stderr log_open] in Herr.
    destruct H as [(_ & _ & E) | (_ & [(e & w3 & E & Heff)
                  | [(_ & _ & E) | (w3 & E & Heff)]])]; rewrite E; cbn [fst snd].
    + right; split; auto; cbn [stderr print_stderr]; rewrite Herr; eauto.
    + right; split; auto; destruct Heff as (_ & _ & _ & _ & Hs & _).
      cbn [stderr print_stderr]; rewrite Hs, Herr; eauto.
    + left; auto.
    + left; split; auto; destruct Heff as (_ & _ & _ & _ & Hs & _).
      now rewrite Hs.
Qed.

(** X2. A run changes no file but the output file: every path that is
    neither the output path nor another spelling of that file holds
    afterwards what it held before. *)
Theorem main_changes_only_output :
  forall (json_load : string -> option Dataset) (py_repr : value -> string)
         (args : Args) (w : World) (p : string),
    p <> output args ->
    same_file w p (output args) = false ->
    fs (snd (main json_load py_repr args w)) p = fs w p.
Proof.
  intros json_load py_repr args w p Hp Hsame.
  destruct (main_cases json_load py_repr args w)
    as [(_ & _ & E) | [(_ & e & E) | (data & _ & H)]].
  - now rewrite E.
  - now rewrite E.
  - cbn zeta in H.
    destruct (process_data_frame data (operations_of args)
                (log_open (OpenRead (input args)) w))
      as (Hfs & _).
    pose proof (process_data_same_file data (operations_of args)
                  (log_open (OpenRead (input args)) w)) as Hsf.
    cbn [fs same_file log_open] in Hfs, Hsf.
    assert (Hsame' : same_file
                       (snd (process_data data (operations_of args)
                               (log_open (OpenRead (input args)) w)))
                       p (output args) = false) by now rewrite Hsf.
    destruct H as [(_ & _ & E) | (_ & [(e & w3 & E & Heff)
                  | [(_ & _ & E) | (w3 & E & Heff)]])]; rewrite E; cbn [fst snd].
    + cbn [fs print_stderr]; now rewrite Hfs.
    + destruct Heff as (Hw & _); cbn [fs print_stderr].
      now rewrite (Hw p Hp Hsame'), Hfs.
    + now rewrite Hfs.
    + destruct Heff as (Hw & _); now rewrite (Hw p Hp Hsame'), Hfs.
Qed.

(** X3. The files a run opens. With an unsupported input extension it
    opens none. With a supported one it opens the input for reading first
    and then at most the output for writing. With an unsupported output
    extension the output is never opened. A run that ends with status 0
    has opened the input and then the output, or only the input when the
    output is a CSV path. *)
Theorem main_open_order :
  forall (json_load : string -> option Dataset) (py_repr : value -> string)
         (args : Args) (w : World),
    let run := main json_load py_repr args w in
    let opened l := io_log (snd run) = (io_log w ++ l)%list in
    let both := [OpenRead (input args); OpenWrite (output args)] in
    (input_ext args <> ".csv" -> input_ext args <> ".json" ->
     opened [] /\ fst run = 1%Z)
    /\ (input_ext args = ".csv" \/ input_ext args = ".json" ->
        opened [OpenRead (input args)] \/ opened both)
    /\ (output_ext args <> ".csv" -> output_ext args <> ".json" ->
        opened [] \/ opened [OpenRead (input args)])
    /\ (fst run = 0%Z ->
        opened both
        \/ (opened [OpenRead (input args)] /\ output_ext args = ".csv")).
Proof.
  intros json_load py_repr args w run opened both; subst opened both.
  cbn beta.
  destruct (main_cases json_load py_repr args w)
    as [(H1 & H2 & E) | [(Hin & e & E) | (data & Hreads & H)]];
    fold run in E || idtac.
  - rewrite E; cbn [fst snd io_log print_stderr]; rewrite app_nil_r.
    intuition (auto; try discriminate).
  - rewrite E; cbn [fst snd io_log print_stderr log_open].
    intuition (auto; try discriminate).
  - assert (Hin : input_ext args = ".csv" \/ input_ext args = ".json")
      by (destruct Hreads as [[? _]|[? _]]; auto).
    cbn zeta in H; fold run in H.
    destruct (process_data_frame data (operations_of args)
                (log_open (OpenRead (input args)) w))
      as (_ & _ & _ & _ & Hlog & _).
    cbn [io_log log_open] in Hlog.
    destruct H as [(Ho1 & Ho2 & E) | (Hout & [(e & w3 & E & Heff)
                  | [(Ecsv & _ & E) | (w3 & E & Heff)]])]; rewrite E;
      cbn [fst snd io_log print_stderr];
      try (destruct Heff as (_ & _ & _ & _ & _ & Hl); rewrite Hl);
      rewrite Hlog, <- ?app_assoc; cbn [app];
      intuition (auto; try discriminate).
Qed.

(** X4. A run reads the clock at most once, and not at all without
    [--add-timestamp]. *)
Theorem main_clock_reads :
  forall (json_load : string -> option Dataset) (py_repr : value -> string)
         (args : Args) (w : World),
    let n := clock_reads (snd (main json_load py_repr args w)) in
    (n = clock_reads w \/ n = S (clock_reads w))
    /\ (arg_add_timestamp args = false -> n = clock_reads w)
    /\ (fst (main json_load py_repr args w) = 0%Z ->
        arg_add_timestamp args = true -> n = S (clock_reads w)).
Proof.
  intros json_load py_repr args w n; subst n.
  destruct (main_cases json_load py_repr args w)
    as [(_ & _ & E) | [(_ & e & E) | (data & _ & H)]].
  - rewrite E; cbn; repeat split; auto; discriminate.
  - rewrite E; cbn; repeat split; auto; discriminate.
  - cbn zeta in H.
    destruct (process_data_frame data (operations_of args)
                (log_open (OpenRead (input args)) w))
      as (_ & _ & _ & _ & _ & Hn).
    cbn [clock_reads log_open] in Hn.
    destruct (str_in_operations_of args) as [Hts _]; rewrite Hts in Hn.
    assert (Hgoal : forall k,
              k = (if arg_add_timestamp args then S (clock_reads w)
                   else clock_reads w) ->
              (k = clock_reads w \/ k = S (clock_reads w))
              /\ (arg_add_timestamp args = false -> k = clock_reads w)
              /\ (arg_add_timestamp args = true -> k = S (clock_reads w))).
    { intros k ->; destruct (arg_add_timestamp args); repeat split; auto;
        discriminate. }
    destruct H as [(_ & _ & E) | (_ & [(e & w3 & E & Heff)
                  | [(_ & _ & E) | (w3 & E & Heff)]])]; rewrite E; cbn [fst snd];
      try (destruct Heff as (_ & _ & _ & Hc & _));
      cbn [clock_reads print_stderr]; rewrite ?Hc;
      destruct (Hgoal _ Hn) as (G1 & G2 & G3); repeat split; auto.
Qed.

(** [main] once the input has been read. *)
Lemma main_after_read : forall json_load py_repr args w data,
  input_reads json_load args w data ->
  main json_load py_repr args w
  = (let w1 := log_open (OpenRead (input args)) w in
     let '(processed_data, w2) := process_data data (operations_of args) w1 in
     match
       (if String.eqb (output_ext args) ".csv"
        then Some (write_csv py_repr processed_data (output args) w2)
        else if String.eqb (output_ext args) ".json"
        then Some (write_json py_repr processed_data (output args) w2)
        else None)
     with
     | None => (1%Z, print_stderr (UnsupportedOutputType (output_ext args)) w2)
     | Some (Err e, w3) => (1%Z, print_stderr (WriteFailed e) w3)
     | Some (Ok _, w3) => (0%Z, w3)
     end).
Proof.
  intros json_load py_repr args w data [[Eext Hr] | [Eext Hr]];
    unfold main; fold (input_ext args); fold (output_ext args);
    rewrite Eext; cbn [String.eqb Ascii.eqb Bool.eqb].
  - pose proof (read_csv_world (input args) w) as Hw.
    destruct (read_csv (input args) w) as [r w1]; cbn [fst snd] in *.
    now subst.
  - pose proof (read_json_world json_load (input args) w) as Hw.
    destruct (read_json json_load (input args) w) as [r w1];
      cbn [fst snd] in *.
    now subst.
Qed.

(** X5. An input path with a supported extension but no file behind it:
    the run ends with status 1 and the [FileNotFoundError] on the error
    stream; the output is never opened and no file changes. *)
Theorem main_missing_input :
  forall (json_load : string -> option Dataset) (py_repr : value -> string)
         (args : Args) (w : World),
    input_ext args = ".csv" \/ input_ext args = ".json" ->
    denied w (input args) = false ->
    fs w (input args) = None ->
    let run := main json_load py_repr args w in
    fst run = 1%Z
    /\ stderr (snd run)
       = (stderr w ++ [ReadFailed (FileNotFoundError (input args))])%list
    /\ io_log (snd run) = (io_log w ++ [OpenRead (input args)])%list
    /\ fs (snd run) = fs w.
Proof.
  intros json_load py_repr args w Hext Hd Hfs run; subst run.
  unfold main; fold (input_ext args).
  destruct Hext as [E|E]; rewrite E; cbn [String.eqb Ascii.eqb Bool.eqb];
    unfold read_csv, read_json, bind, open_read; rewrite Hd, Hfs;
    repeat split.
Qed.

(** X6. The output extension is looked at only after the input has been
    read and transformed: with an unsupported one the run ends with status
    1 and one line on the error stream, the input has been opened, the
    output has not, and no file has changed. *)
Theorem main_unsupported_output :
  forall (json_load : string -> option Dataset) (py_repr : value -> string)
         (args : Args) (w : World) (data : Dataset),
    input_reads json_load args w data ->
    output_ext args <> ".csv" ->
    output_ext args <> ".json" ->
    let run := main json_load py_repr args w in
    fst run = 1%Z
    /\ stderr (snd run)
       = (stderr w ++ [UnsupportedOutputType (output_ext args)])%list
    /\ io_log (snd run) = (io_log w ++ [OpenRead (input args)])%list
    /\ fs (snd run) = fs w.
Proof.
  intros json_load py_repr args w data Hread Hcsv Hjson run; subst run.
  rewrite (main_after_read _ _ _ _ _ Hread); cbn zeta.
  apply String.eqb_neq in Hcsv, Hjson; rewrite Hcsv, Hjson.
  destruct (process_data_frame data (operations_of args)
              (log_open (OpenRead (input args)) w))
    as (Hfs & _ & _ & Herr & Hlog & _).
  destruct (process_data data (operations_of args)
              (log_open (OpenRead (input args)) w)) as [processed w2].
  cbn [fst snd] in *; cbn [stderr io_log fs print_stderr].
  rewrite Hfs, Herr, Hlog; repeat split.
Qed.

(** X7. An input without records sent to a CSV output: the run ends with
    status 0 and the output path is left as it was, not opened, not
    created, not emptied. *)
Theorem main_empty_to_csv :
  forall (json_load : string -> option Dataset) (py_repr : value -> string)
         (args : Args) (w : World),
    input_reads json_load args w [] ->
    output_ext args = ".csv" ->
    let run := main json_load py_repr args w in
    fst run = 0%Z
    /\ fs (snd run) = fs w
    /\ io_log (snd run) = (io_log w ++ [OpenRead (input args)])%list
    /\ stderr (snd run) = stderr w.
Proof.
  intros json_load py_repr args w Hread Hcsv run; subst run.
  rewrite (main_after_read _ _ _ _ _ Hread); cbn zeta.
  rewrite Hcsv; cbn [String.eqb Ascii.eqb Bool.eqb].
  destruct (process_data_frame [] (operations_of args)
              (log_open (OpenRead (input args)) w))
    as (Hfs & _ & _ & Herr & Hlog & _).
  pose proof (process_data_per_record [] (operations_of args)
                (log_open (OpenRead (input args)) w)) as Hres.
  destruct (process_data [] (operations_of args)
              (log_open (OpenRead (input args)) w)) as [processed w2].
  cbn [fst snd map] in *; subst processed; cbn [write_csv ret fst snd].
  rewrite Hfs, Herr, Hlog; repeat split.
Qed.

(** X8. Any input that reads as [data], sent to a JSON output that can be
    opened: the run ends with status 0 and the output file holds the JSON
    text of the records, each transformed by the requested operations with
    the one timestamp of the run. *)
Theorem main_to_json :
  forall (json_load : string -> option Dataset) (py_repr : value -> string)
         (args : Args) (w : World) (data : Dataset),
    input_reads json_load args w data ->
    output_ext args = ".json" ->
    denied w (output args) = false ->
    let run := main json_load py_repr args w in
    let timestamp := isoformat (clock w (clock_reads w)) in
    fst run = 0%Z
    /\ fs (snd run) (output args)
       = Some (Json.dumps py_repr
                 (map (per_record (operations_of args) timestamp) data))
    /\ stderr (snd run) = stderr w.
Proof.
  intros json_load py_repr args w data Hread Hjson Hd run timestamp.
  subst run; rewrite (main_after_read _ _ _ _ _ Hread); cbn zeta.
  rewrite Hjson; cbn [String.eqb Ascii.eqb Bool.eqb].
  destruct (process_data_frame data (operations_of args)
              (log_open (OpenRead (input args)) w))
    as (_ & Hden & _ & Herr & _).
  pose proof (process_data_per_record data (operations_of args)
                (log_open (OpenRead (input args)) w)) as Hres.
  destruct (process_data data (operations_of args)
              (log_open (OpenRead (input args)) w)) as [processed w2].
  cbn [fst snd clock clock_reads log_open denied stderr] in *.
  unfold write_json, bind, open_write, write; rewrite Hden, Hd.
  cbn [fst snd fs store stderr log_open]; rewrite String.eqb_refl, Hres.
  repeat split; auto.
Qed.

(** X9. Any input that reads as [data], sent to a CSV output that can be
    opened, when the transformed records are not empty and have no key
    outside the first one's: the run ends with status 0 and the output
    file holds the header of the first transformed record and one row per
    record. *)
Theorem main_to_csv :
  forall (json_load : string -> option Dataset) (py_repr : value -> string)
         (args : Args) (w : World) (data : Dataset)
         (first : dict) (rest : Dataset),
    input_reads json_load args w data ->
    output_ext args = ".csv" ->
    denied w (output args) = false ->
    map (per_record (operations_of args)
           (isoformat (clock w (clock_reads w)))) data = first :: rest ->
    forallb (in_fieldnames (keys first)) (first :: rest) = true ->
    let run := main json_load py_repr args w in
    fst run = 0%Z
    /\ fs (snd run) (output args)
       = Some (Csv.writeheader (keys first)
               ++ rows_text py_repr (keys first) (first :: rest))
    /\ stderr (snd run) = stderr w.
Proof.
  intros json_load py_repr args w data first rest Hread Hcsv Hd Hrec Hall run.
  subst run; rewrite (main_after_read _ _ _ _ _ Hread); cbn zeta.
  rewrite Hcsv; cbn [String.eqb Ascii.eqb Bool.eqb].
  destruct (process_data_frame data (operations_of args)
              (log_open (OpenRead (input args)) w))
    as (_ & Hden & _ & Herr & _).
  pose proof (process_data_per_record data (operations_of args)
                (log_open (OpenRead (input args)) w)) as Hres.
  destruct (process_data data (operations_of args)
              (log_open (OpenRead (input args)) w)) as [processed w2].
  cbn [fst snd clock clock_reads log_open denied stderr] in *.
  rewrite Hrec in Hres; subst processed.
  rewrite write_csv_ok; [| now rewrite Hden | assumption].
  cbn [fst snd fs store stderr log_open]; rewrite String.eqb_refl.
  repeat split; auto.
Qed.

Lemma key_eq_dec : forall a b : key, {a = b} + {a <> b}.
Proof. decide equality; apply string_dec. Qed.

Lemma count_occ_filter : forall k l,
  count_occ key_eq_dec l k = List.length (filter (key_eqb k) l).
Proof.
  induction l as [|x l IH]; simpl; auto.
  destruct (key_eq_dec x k) as [->|Hne].
  - rewrite key_eqb_refl; simpl; auto.
  - assert (E : key_eqb k x = false) by (apply key_eqb_neq; congruence).
    now rewrite E.
Qed.

Lemma same_members_perm : forall l s,
  same_members l s = true -> Permutation l s.
Proof.
  intros l s H; apply (Permutation_count_occ key_eq_dec); intro k.
  unfold same_members in H; rewrite forallb_forall in H.
  destruct (in_dec key_eq_dec k (l ++ s)) as [Hin|Hout].
  - rewrite !count_occ_filter; apply Nat.eqb_eq, H, Hin.
  - rewrite !(proj1 (count_occ_not_In key_eq_dec _ k)); auto;
      intro Hin; apply Hout, in_or_app; auto.
Qed.

Lemma set_iter_perm : forall w s, Permutation (set_iter w s) s.
Proof.
  intros w s; unfold set_iter.
  destruct (same_members (set_order w s) s) eqn:E; auto.
  now apply same_members_perm.
Qed.

Lemma write_csv_stops : forall py_repr first rest path w pre d post,
  denied w path = false ->
  first :: rest = (pre ++ d :: post)%list ->
  forallb (in_fieldnames (keys first)) pre = true ->
  in_fieldnames (keys first) d = false ->
  write_csv py_repr (first :: rest) path w
  = (Err (ValueError (set_iter w (wrong_fields (keys first) d))),
     store path (Csv.writeheader (keys first)
                 ++ rows_text py_repr (keys first) pre)
       (store path "" (log_open (OpenWrite path) w))).
Proof.
  intros py_repr first rest path w pre d post Hd E Hpre Hbad.
  unfold write_csv, bind, open_write, set_iteration; rewrite Hd.
  now rewrite E, (writerows_stops _ _ _ _ _ _ Hpre Hbad).
Qed.

(** C2, as the code has it. The header is the first record's keys in their
    order. While every record's keys are among them, each record is one row
    with a cell per header column, empty where the record lacks the key,
    and the write succeeds. The first record with a key outside the header
    makes the write fail with a [ValueError] naming exactly those keys, in
    the order the running process iterates over their set; the file then
    holds the header and the rows of the records before it, and a run of
    [main] that hands such a dataset to the CSV writer prints the
    write-failure message with that error and ends with status 1. *)
Theorem write_csv_header_from_first :
  forall (py_repr : value -> string) (first : dict) (rest : Dataset)
         (path : string) (w : World),
    denied w path = false ->
    let data := first :: rest in
    let fieldnames := keys first in
    let run := write_csv py_repr data path w in
    (forallb (in_fieldnames fieldnames) data = true ->
       fst run = Ok tt
       /\ fs (snd run) path
          = Some (Csv.writeheader fieldnames
                  ++ rows_text py_repr fieldnames data))
    /\ (forall pre d post,
          data = (pre ++ d :: post)%list ->
          forallb (in_fieldnames fieldnames) pre = true ->
          in_fieldnames fieldnames d = false ->
          let wrong := set_iter w (wrong_fields fieldnames d) in
          fst run = Err (ValueError wrong)
          /\ Permutation wrong (wrong_fields fieldnames d)
          /\ fs (snd run) path
             = Some (Csv.writeheader fieldnames
                     ++ rows_text py_repr fieldnames pre)
          /\ forall (json_load : string -> option Dataset) (args : Args)
                    (w0 : World) (input_data : Dataset),
               input_reads json_load args w0 input_data ->
               output_ext args = ".csv" ->
               denied w0 (output args) = false ->
               map (per_record (operations_of args)
                      (isoformat (clock w0 (clock_reads w0)))) input_data
               = data ->
               let whole := main json_load py_repr args w0 in
               fst whole = 1%Z
               /\ stderr (snd whole)
                  = (stderr w0
                     ++ [WriteFailed
                           (ValueError
                              (set_iter w0 (wrong_fields fieldnames d)))])%list
               /\ fs (snd whole) (output args)
                  = Some (Csv.writeheader fieldnames
                          ++ rows_text py_repr fieldnames pre)).
Proof.
  intros py_repr first rest path w Hd data fieldnames run; split.
  - intro Hall; subst run data fieldnames.
    rewrite write_csv_ok by assumption.
    cbn [fst snd fs store]; rewrite String.eqb_refl; auto.
  - intros pre d post E Hpre Hbad wrong; subst run data fieldnames wrong.
    rewrite (write_csv_stops _ _ _ _ _ _ _ _ Hd E Hpre Hbad).
    cbn [fst snd fs store]; rewrite String.eqb_refl; cbn [orb].
    split; [reflexivity|]; split; [apply set_iter_perm|].
    split; [reflexivity|].
    intros json_load args w0 input_data Hread Hcsv Hd0 Hrec.
    rewrite (main_after_read _ _ _ _ _ Hread); cbn zeta.
    rewrite Hcsv; cbn [String.eqb Ascii.eqb Bool.eqb].
    destruct (process_data_frame input_data (operations_of args)
                (log_open (OpenRead (input args)) w0))
      as (_ & Hden & _ & Herr & _).
    pose proof (process_data_per_record input_data (operations_of args)
                  (log_open (OpenRead (input args)) w0)) as Hres.
    pose proof (process_data_world input_data (operations_of args)
                  (log_open (OpenRead (input args)) w0)) as Hw.
    destruct (process_data input_data (operations_of args)
                (log_open (OpenRead (input args)) w0)) as [processed w2].
    cbn [fst snd clock clock_reads log_open denied stderr] in *.
    rewrite Hrec in Hres; subst processed.
    rewrite (write_csv_stops _ _ _ _ _ _ _ _
               ltac:(rewrite Hden; exact Hd0) E Hpre Hbad).
    cbn [fst snd fs store stderr log_open print_stderr];
      rewrite String.eqb_refl; cbn [orb].
    rewrite Herr.
    repeat split.
    rewrite Hw.
    destruct (str_in "add_timestamp" (operations_of args)); reflexivity.
Qed.

(* ================================================================== *)
(** ** More on the transformer *)

Lemma truthy_not_falsy : forall v, truthy v = true <-> ~ falsy v.
Proof.
  intro v; unfold falsy; split.
  - intros H [E|[E|[E|[[s E]|[E|[E|E]]]]]]; subst; discriminate.
  - intro H; destruct v as [|[|]|z|f|s|l|d]; simpl; auto;
      try (exfalso; apply H; now auto).
    + destruct (Z.eqb_spec z 0); auto. subst; exfalso; apply H; auto.
    + destruct f; auto. exfalso; apply H; eauto 6.
    + destruct s; auto. exfalso; apply H; auto 6.
    + destruct l; auto. exfalso; apply H; auto 7.
    + destruct d; auto. exfalso; apply H; auto 8.
Qed.

(** X10. [filter_empty] keeps a field exactly when its value is not one
    of Python's false values: besides the empty string it drops [None],
    [False], the number zero (integer or float) and empty lists and
    dicts. *)
Theorem filter_empty_drops_falsy :
  forall (item : dict) (k : key) (v : value),
    In (k, v) (filter_empty item) <-> In (k, v) item /\ ~ falsy v.
Proof.
  intros item k v; unfold filter_empty; rewrite filter_In; cbn [snd].
  now rewrite truthy_not_falsy.
Qed.

Lemma keys_filter_incl : forall (p : key * value -> bool) d k,
  In k (keys (filter p d)) -> In k (keys d).
Proof.
  unfold keys; intros p d k H; apply in_map_iff in H.
  destruct H as (kv & E & H); apply filter_In in H.
  apply in_map_iff; exists kv; tauto.
Qed.

Lemma filter_keeps_wf : forall (p : key * value -> bool) d,
  dict_wf d -> dict_wf (filter p d).
Proof.
  unfold dict_wf, keys; induction d as [|[k v] d IH]; simpl; intro H; auto.
  inversion H as [|? ? Hk Hd]; subst.
  destruct (p (k, v)); simpl; auto.
  constructor; auto. intro Hin; apply Hk.
  now apply (keys_filter_incl p d k).
Qed.

Lemma keys_dict_set_present : forall k v d,
  In k (keys d) -> keys (dict_set k v d) = keys d.
Proof.
  induction d as [|[k' v'] d IH]; simpl; [tauto|]; intro H.
  destruct (key_eqb k k') eqn:E; simpl; auto.
  f_equal; apply IH; destruct H as [H|H]; auto.
  subst; rewrite key_eqb_refl in E; discriminate.
Qed.

Lemma keys_dict_set : forall k v d,
  keys (dict_set k v d)
  = if existsb (key_eqb k) (keys d) then keys d else (keys d ++ [k])%list.
Proof.
  intros k v d; destruct (existsb (key_eqb k) (keys d)) eqn:E.
  - apply keys_dict_set_present.
    apply existsb_exists in E; destruct E as (k' & Hin & E).
    apply key_eqb_eq in E; now subst.
  - rewrite keys_dict_set_absent.
    + unfold keys; now rewrite map_app.
    + intro Hin; apply existsb_key_in in Hin; congruence.
Qed.

Lemma dict_set_keeps_wf : forall k v d, dict_wf d -> dict_wf (dict_set k v d).
Proof.
  unfold dict_wf; intros k v d H; rewrite keys_dict_set.
  destruct (existsb (key_eqb k) (keys d)) eqn:E; auto.
  apply NoDup_app; auto.
  - repeat constructor; simpl; tauto.
  - intros x Hx [Hk|[]]; subst x.
    apply existsb_key_in in Hx; congruence.
Qed.

Lemma filter_empty_get : forall item k,
  dict_wf item ->
  dict_get k (filter_empty item)
  = match dict_get k item with
    | Some v => if truthy v then Some v else None
    | None => None
    end.
Proof.
  unfold filter_empty, dict_wf, keys.
  induction item as [|[k' v'] item IH]; intros k Hwf; simpl; auto.
  inversion Hwf as [|? ? Hk Hd]; subst.
  destruct (key_eqb k k') eqn:E.
  - apply key_eqb_eq in E; subst k'.
    destruct (truthy v') eqn:Ht; simpl.
    + now rewrite key_eqb_refl.
    + apply dict_get_not_in; intro Hin; apply Hk.
      eapply keys_filter_incl; exact Hin.
  - destruct (truthy v'); simpl; rewrite ?E; auto.
Qed.

(** X11. Looking a key up after [filter_empty], in a dataset of records
    without a repeated key: in each record of the result the key has the
    value the input record had when that value is true, and is missing
    when the value is false or the key was missing. *)
Theorem filter_empty_lookup :
  forall (data : Dataset) (operations : list string) (w : World),
    Forall dict_wf data ->
    str_in "filter_empty" operations = true ->
    str_in "add_timestamp" operations = false ->
    Forall2
      (fun item out =>
         forall k, dict_get k out
                   = match dict_get k item with
                     | Some v => if truthy v then Some v else None
                     | None => None
                     end)
      data (fst (process_data data operations w)).
Proof.
  intros data operations w Hwf Hf Ht; rewrite process_data_per_record.
  induction Hwf as [|item data Hi Hd IH]; constructor; auto.
  intro k; unfold per_record; rewrite Hf, Ht.
  now apply filter_empty_get.
Qed.

(** X12. The transformer keeps records free of repeated keys: a dataset
    of such records comes out as one, whatever operations are requested. *)
Theorem process_data_keeps_wf :
  forall (data : Dataset) (operations : list string) (w : World),
    Forall dict_wf data ->
    Forall dict_wf (fst (process_data data operations w)).
Proof.
  intros data operations w H; rewrite process_data_per_record.
  apply Forall_map; eapply Forall_impl; [|exact H].
  intros item Hwf; unfold per_record, add_timestamp, filter_empty.
  destruct (str_in "filter_empty" operations),
           (str_in "add_timestamp" operations);
    auto using dict_set_keeps_wf, filter_keeps_wf.
Qed.

(** X13. Stamping alone leaves every other field as it was: the value of
    any key but [timestamp] is unchanged, and the keys keep their order,
    with [timestamp] staying in its place when the record had it and going
    last when it had not. *)
Theorem add_timestamp_keeps_fields :
  forall (data : Dataset) (operations : list string) (w : World),
    str_in "filter_empty" operations = false ->
    str_in "add_timestamp" operations = true ->
    Forall2
      (fun item out =>
         (forall k, k <> timestamp_key -> dict_get k out = dict_get k item)
         /\ keys out
            = if existsb (key_eqb timestamp_key) (keys item) then keys item
              else (keys item ++ [timestamp_key])%list)
      data (fst (process_data data operations w)).
Proof.
  intros data operations w Hf Ht; rewrite process_data_per_record.
  induction data as [|item data IH]; constructor; auto.
  unfold per_record, add_timestamp; rewrite Hf, Ht; split.
  - intros k Hk; now apply dict_get_set_other.
  - apply keys_dict_set.
Qed.

Lemma dict_set_twice : forall k v1 v2 d,
  dict_set k v2 (dict_set k v1 d) = dict_set k v2 d.
Proof.
  induction d as [|[k' v'] d IH]; simpl.
  - now rewrite key_eqb_refl.
  - destruct (key_eqb k k') eqn:E; simpl; rewrite E; congruence.
Qed.

(** X14. Stamping a stamped dataset again replaces the timestamp by the
    second reading of the clock and adds no second [timestamp] key: the
    result is the original dataset stamped once with the later time. *)
Theorem add_timestamp_again :
  forall (data : Dataset) (w : World),
    let once := process_data data ["add_timestamp"] w in
    let twice := process_data (fst once) ["add_timestamp"] (snd once) in
    fst twice
    = map (add_timestamp (isoformat (clock w (S (clock_reads w))))) data
    /\ map keys (fst twice) = map keys (fst once)
    /\ clock_reads (snd twice) = S (S (clock_reads w)).
Proof.
  intros data w; cbn zeta.
  assert (E : fst (process_data
                     (fst (process_data data ["add_timestamp"] w))
                     ["add_timestamp"]
                     (snd (process_data data ["add_timestamp"] w)))
              = map (add_timestamp (isoformat (clock w (S (clock_reads w)))))
                    data).
  { rewrite !process_data_per_record, process_data_world; cbn.
    rewrite map_map; apply map_ext; intro item.
    apply dict_set_twice. }
  rewrite E; repeat split.
  rewrite process_data_per_record.
  rewrite !map_map; apply map_ext; intro item.
  change (per_record ["add_timestamp"] ?t item) with (add_timestamp t item).
  unfold add_timestamp; rewrite !keys_dict_set; reflexivity.
Qed.

Lemma isoformat_not_empty : forall t, isoformat t <> "".
Proof.
  intro t; unfold isoformat.
  apply sapp_nonempty_r; discriminate.
Qed.

(** X15. A timestamp is never an empty string, so a later [filter_empty]
    keeps it: filtering a stamped dataset of records without repeated keys
    gives, record by record, the same mapping as the two operations
    requested together. *)
Theorem timestamp_survives_filter :
  forall (data : Dataset) (w : World),
    Forall dict_wf data ->
    let stamped := process_data data ["add_timestamp"] w in
    let later := process_data (fst stamped) ["filter_empty"] (snd stamped) in
    let both := process_data data ["filter_empty"; "add_timestamp"] w in
    Forall (fun item =>
              dict_get timestamp_key item
              = Some (VStr (isoformat (clock w (clock_reads w)))))
           (fst later)
    /\ Forall2 dict_eq (fst later) (fst both).
Proof.
  intros data w Hwf; cbn zeta; rewrite !process_data_per_record.
  cbn [per_record str_in existsb String.eqb Ascii.eqb Bool.eqb orb].
  set (ts := isoformat (clock w (clock_reads w))).
  assert (Htrue : truthy (VStr ts) = true).
  { simpl; destruct ts eqn:E; auto.
    now apply isoformat_not_empty in E. }
  assert (Hone : forall item k, dict_wf item ->
            dict_get k (filter_empty (add_timestamp ts item))
            = dict_get k (add_timestamp ts (filter_empty item))).
  { intros item k Hi; unfold add_timestamp.
    rewrite filter_empty_get by now apply dict_set_keeps_wf.
    destruct (key_eqb k (KStr "timestamp")) eqn:E.
    - apply key_eqb_eq in E; subst k.
      now rewrite !dict_get_set_same, Htrue.
    - apply key_eqb_neq in E.
      rewrite !dict_get_set_other by assumption.
      now rewrite filter_empty_get. }
  split.
  - rewrite map_map; apply Forall_map.
    eapply Forall_impl; [|exact Hwf]; intros item Hi; cbv beta.
    unfold timestamp_key; rewrite Hone by assumption.
    apply dict_get_set_same.
  - rewrite map_map.
    induction Hwf as [|item data Hi Hd IH]; constructor; auto.
    intro k; now apply Hone.
Qed.

(* ================================================================== *)
(** ** The timestamp of the run *)

Lemma all_chars_app : forall p a b,
  all_chars p (a ++ b) = all_chars p a && all_chars p b.
Proof.
  induction a as [|c a IH]; simpl; intro b; auto.
  now rewrite IH, andb_assoc.
Qed.

Lemma all_digits_uint : forall d,
  all_chars is_digit (NilEmpty.string_of_uint d) = true.
Proof. induction d; simpl; auto. Qed.

Lemma all_digits_zeros : forall n, all_chars is_digit (zeros n) = true.
Proof. induction n; simpl; auto. Qed.

Lemma span_digits_app : forall ds rest,
  all_chars is_digit ds = true -> not_digit_first rest ->
  span_digits (ds ++ rest) = (ds, rest).
Proof.
  induction ds as [|c ds IH]; simpl; intros rest Hd Hr.
  - destruct rest as [|c r]; simpl in *; auto. now rewrite Hr.
  - apply andb_true_iff in Hd; destruct Hd as [Hc Hd].
    rewrite Hc, IH; auto.
Qed.

Lemma uint_of_zeros : forall k s u,
  NilEmpty.uint_of_string s = Some u ->
  exists u', NilEmpty.uint_of_string (zeros k ++ s) = Some u'
             /\ N.of_uint u' = N.of_uint u.
Proof.
  induction k as [|k IH]; simpl; intros s u H; eauto.
  destruct (IH s u H) as (u' & -> & E); simpl; eauto.
Qed.

Lemma zfill_parts : forall w n, exists k d,
  zfill w n = zeros k ++ NilEmpty.string_of_uint d
  /\ d <> Decimal.Nil /\ N.of_uint d = n.
Proof.
  intros w n; unfold zfill.
  pose proof (DecimalN.Unsigned.of_to n) as E.
  destruct (N.to_uint n) as [|d|d|d|d|d|d|d|d|d|d] eqn:En.
  1: exists (w - 1), (Decimal.D0 Decimal.Nil); repeat split; auto; discriminate.
  all: eexists _, _; (split; [reflexivity|]); split; [discriminate|exact E].
Qed.

Lemma read_number_zfill : forall w n rest,
  not_digit_first rest -> read_number (zfill w n ++ rest) = Some (n, rest).
Proof.
  intros w n rest Hr.
  destruct (zfill_parts w n) as (k & d & -> & Hd & <-).
  unfold read_number; rewrite span_digits_app; auto.
  - destruct (uint_of_zeros k _ d (NilEmpty.usu d)) as (u' & Hu & <-).
    assert (Hz : NilZero.uint_of_string (zeros k ++ NilEmpty.string_of_uint d)
                 = NilEmpty.uint_of_string
                     (zeros k ++ NilEmpty.string_of_uint d)).
    { destruct k; [|reflexivity]. destruct d; try reflexivity. congruence. }
    now rewrite Hz, Hu.
  - rewrite all_chars_app, all_digits_zeros, all_digits_uint; reflexivity.
Qed.

Lemma read_field_zfill : forall sep w n rest,
  is_digit sep = false ->
  read_field sep (zfill w n ++ String sep rest) = Some (n, rest).
Proof.
  intros sep w n rest Hs; unfold read_field.
  rewrite read_number_zfill by exact Hs.
  now rewrite Ascii.eqb_refl.
Qed.

Lemma read_iso_isoformat : forall t, read_iso (isoformat t) = Some t.
Proof.
  intros [y mo d h mi sec us]; unfold isoformat, read_iso.
  cbn [year month day hour minute second microsecond].
  change ("-" ++ ?x) with (String "-" x).
  cbn [append].
  repeat (rewrite read_field_zfill by reflexivity; cbn [obind]).
  destruct (N.eqb us 0) eqn:E.
  - apply N.eqb_eq in E; subst us.
    rewrite read_number_zfill by exact I. cbn [obind]. reflexivity.
  - cbn [append]; rewrite read_number_zfill by reflexivity.
    cbn [obind]; rewrite Ascii.eqb_refl.
    rewrite <- (sapp_nil_r (zfill 6 us)).
    rewrite read_number_zfill by exact I; reflexivity.
Qed.

(** C3. When [add_timestamp] is requested the clock is read once, whatever
    the number of records, at the moment the operation runs: the timestamp
    is an ISO text that reads back as exactly that reading of the clock.
    That one text is the value of [timestamp] in every record of the
    result, and it is inserted into the records of the dataset as they
    stand at that point (filtered first when that was requested too):
    every other field keeps its value, and the keys keep their order, with
    [timestamp] in its place when the record had it and last when it had
    not. *)
Theorem add_timestamp_uniform :
  forall (data : Dataset) (operations : list string) (w : World),
    str_in "add_timestamp" operations = true ->
    let before :=
      if str_in "filter_empty" operations then map filter_empty data
      else data in
    let result := fst (process_data data operations w) in
    let w' := snd (process_data data operations w) in
    let timestamp := isoformat (clock w (clock_reads w)) in
    clock_reads w' = S (clock_reads w)
    /\ read_iso timestamp = Some (clock w (clock_reads w))
    /\ List.length result = List.length data
    /\ Forall (fun item =>
                 dict_get (KStr "timestamp") item = Some (VStr timestamp))
              result
    /\ Forall2
         (fun item out =>
            (forall k, k <> timestamp_key -> dict_get k out = dict_get k item)
            /\ keys out
               = if existsb (key_eqb timestamp_key) (keys item) then keys item
                 else (keys item ++ [timestamp_key])%list)
         before result.
Proof.
  intros data operations w H; cbn zeta.
  split; [unfold process_data; rewrite H; reflexivity|].
  split; [apply read_iso_isoformat|].
  rewrite process_data_per_record.
  split; [apply length_map|].
  split.
  - apply Forall_map, Forall_forall.
    intros item _; unfold per_record; rewrite H.
    apply dict_get_set_same.
  - unfold per_record; rewrite H.
    destruct (str_in "filter_empty" operations);
      induction data as [|item data IH]; constructor; auto;
      unfold add_timestamp; (split; [|apply keys_dict_set]);
      intros k Hk; now apply dict_get_set_other.
Qed.

(* ================================================================== *)
(** ** More on the CSV reader *)

Lemma keys_zip : forall (ks : list key) (vs : list value),
  keys (zip ks vs) = firstn (List.length vs) ks.
Proof.
  unfold keys; induction ks as [|k ks IH]; destruct vs as [|v vs]; simpl;
    auto.
  now rewrite IH.
Qed.

Lemma NoDup_KStr : forall names, NoDup names -> NoDup (map KStr names).
Proof.
  induction 1 as [|a l Ha Hl IH]; simpl; constructor; auto.
  intro Hin; apply in_map_iff in Hin; destruct Hin as (b & E & Hb).
  inversion E; subst; contradiction.
Qed.

Lemma KNone_not_KStr : forall names, ~ In KNone (map KStr names).
Proof.
  intros names Hin; apply in_map_iff in Hin.
  destruct Hin as (b & E & _); discriminate.
Qed.

Lemma fold_set_none : forall names d,
  NoDup (keys d ++ map KStr names) ->
  fold_left (fun d k => dict_set (KStr k) VNone d) names d
  = (d ++ map (fun k => (KStr k, VNone)) names)%list.
Proof.
  induction names as [|k names IH]; simpl; intros d Hnd.
  - now rewrite app_nil_r.
  - rewrite keys_dict_set_absent.
    + rewrite IH; [now rewrite <- app_assoc|].
      unfold keys in *; rewrite map_app; simpl.
      now rewrite <- app_assoc.
    + apply NoDup_remove_2 in Hnd; intro H; apply Hnd, in_or_app; auto.
Qed.

Lemma row_dict_parts : forall fieldnames row,
  NoDup fieldnames ->
  Csv.row_dict fieldnames row = row_record fieldnames row.
Proof.
  intros fieldnames row Hnd; unfold Csv.row_dict, row_record.
  assert (Hkeys : keys (zip (map KStr fieldnames) (map VStr row))
                  = map KStr (firstn (List.length row) fieldnames)).
  { now rewrite keys_zip, length_map, firstn_map. }
  assert (Hzip : dict_of (zip (map KStr fieldnames) (map VStr row))
                 = zip (map KStr fieldnames) (map VStr row)).
  { apply dict_of_nodup; fold (keys (zip (map KStr fieldnames) (map VStr row))).
    rewrite Hkeys; apply NoDup_KStr.
    rewrite <- (firstn_skipn (List.length row) fieldnames) in Hnd.
    now apply NoDup_app_remove_r in Hnd. }
  rewrite Hzip.
  destruct (List.length fieldnames <? List.length row)%nat eqn:E.
  - apply keys_dict_set_absent; rewrite Hkeys; apply KNone_not_KStr.
  - apply fold_set_none; rewrite Hkeys, <- map_app, firstn_skipn.
    now apply NoDup_KStr.
Qed.

(** X16. What [read_csv] makes of the rows of a file under a header of
    distinct names: blank rows are left out; every other row gives the
    header names paired with its cells, in header order, as far as both
    go, then, for a row with too few cells, the remaining names bound to
    [None], and for a row with too many, the remaining cells as a list
    under the key [None]. *)
Theorem DictReader_records :
  forall (fieldnames : list string) (rows : list (list string)),
    NoDup fieldnames ->
    Csv.DictReader (fieldnames :: rows)
    = map (row_record fieldnames) (filter (fun r => negb (Csv.is_blank r)) rows)
    /\ (forall row,
          List.length row = List.length fieldnames ->
          row_record fieldnames row
          = zip (map KStr fieldnames) (map VStr row)).
Proof.
  intros fieldnames rows Hnd; split.
  - cbn [Csv.DictReader]; apply map_ext; intro row.
    now apply row_dict_parts.
  - intros row Hlen; unfold row_record.
    rewrite Hlen, Nat.ltb_irrefl, skipn_all; cbn [map].
    apply app_nil_r.
Qed.

Lemma filter_empty_strings : forall item,
  Forall (fun kv => is_str (snd kv)) item ->
  filter_empty item = filter (fun kv => negb (is_empty_str (snd kv))) item.
Proof.
  intros item Hstr; unfold filter_empty; apply filter_ext_in.
  intros [k v] Hin; rewrite Forall_forall in Hstr.
  destruct (Hstr _ Hin) as [s E]; simpl in E; subst v; apply truthy_str.
Qed.

Lemma filter_empty_app : forall a b,
  filter_empty (a ++ b)%list = (filter_empty a ++ filter_empty b)%list.
Proof. intros; apply filter_app. Qed.

Lemma filter_empty_nones : forall names,
  filter_empty (map (fun k => (KStr k, VNone)) names) = [].
Proof. induction names; simpl; auto. Qed.

(** X17. With [filter_empty], a row with too few cells gives the same
    record as the row filled up with empty cells would: the names it has
    no cell for are absent, like the names whose cell is empty. *)
Theorem short_row_filtered :
  forall (fieldnames row : list string),
    NoDup fieldnames ->
    (List.length row <= List.length fieldnames)%nat ->
    filter_empty (Csv.row_dict fieldnames row)
    = filter (fun kv => negb (is_empty_str (snd kv)))
             (zip (map KStr fieldnames) (map VStr row)).
Proof.
  intros fieldnames row Hnd Hlen; rewrite row_dict_parts by assumption.
  unfold row_record; apply Nat.ltb_ge in Hlen; rewrite Hlen.
  rewrite filter_empty_app, filter_empty_nones, app_nil_r.
  apply filter_empty_strings.
  apply Forall_forall; intros [k v] Hin.
  apply in_zip_r, in_map_iff in Hin; destruct Hin as (s & E & _).
  now exists s.
Qed.

Lemma universal_newlines_clean : forall s,
  mentions CR s = false -> TextIO.universal_newlines s = s.
Proof.
  intros s H; rewrite <- (sapp_nil_r s) at 1.
  rewrite universal_newlines_app by assumption.
  apply sapp_nil_r.
Qed.

Lemma universal_newlines_no_cr_upto : forall n s,
  (String.length s <= n)%nat ->
  mentions CR (TextIO.universal_newlines s) = false.
Proof.
  induction n as [|n IH]; intros s Hlen.
  - destruct s; [reflexivity | simpl in Hlen; lia].
  - destruct s as [|c rest]; [reflexivity|].
    simpl in Hlen; cbn [TextIO.universal_newlines].
    destruct (Ascii.eqb c CR) eqn:Ec.
    + destruct rest as [|c' rest']; [reflexivity|].
      simpl in Hlen.
      destruct (Ascii.eqb c' LF); cbn [mentions];
        change (Ascii.eqb LF CR) with false; cbn [orb]; apply IH;
        simpl; lia.
    + cbn [mentions]; rewrite Ec; cbn [orb]; apply IH; lia.
Qed.

Lemma universal_newlines_no_cr : forall s,
  mentions CR (TextIO.universal_newlines s) = false.
Proof. intro s; now apply (universal_newlines_no_cr_upto (String.length s)). Qed.

(** X18. [read_csv] sees a file through universal newlines: the text
    reaching the parser holds no carriage return, translating it again
    changes nothing, and so a file reads the same as the file with all its
    line breaks (CR LF, CR or LF) already turned into LF. *)
Theorem read_csv_line_endings :
  forall (path text : string) (w : World),
    mentions CR (TextIO.universal_newlines text) = false
    /\ TextIO.universal_newlines (TextIO.universal_newlines text)
       = TextIO.universal_newlines text
    /\ fst (read_csv path (store path (TextIO.universal_newlines text) w))
       = fst (read_csv path (store path text w)).
Proof.
  intros path text w.
  assert (Hidem : TextIO.universal_newlines (TextIO.universal_newlines text)
                  = TextIO.universal_newlines text)
    by apply universal_newlines_clean, universal_newlines_no_cr.
  repeat split; auto using universal_newlines_no_cr.
  unfold read_csv, bind, open_read; cbn [denied store fs log_open].
  rewrite String.eqb_refl; cbn [orb].
  destruct (denied w path); [reflexivity|]; rewrite Hidem.
  destruct (Csv.reader _); reflexivity.
Qed.

(** X19. A CSV file that holds a header row and nothing else, whatever
    the line break after it, and likewise an empty file, reads as the
    empty dataset. *)
Theorem read_csv_header_only :
  forall (path : string) (w : World) (header : list string) (eol : string),
    denied w path = false ->
    safe_row header ->
    eol = chr LF \/ eol = chr CR \/ eol = crlf ->
    (fs w path = Some (row_body header ++ eol) \/ fs w path = Some "") ->
    fst (read_csv path w) = Ok [].
Proof.
  intros path w header eol Hd [Hne Hsafe] Heol Hfs.
  unfold read_csv, bind, open_read; rewrite Hd.
  destruct Hfs as [Hfs|Hfs]; rewrite Hfs; [|reflexivity].
  assert (Htext : TextIO.universal_newlines (row_body header ++ eol)
                  = row_body header ++ String LF "").
  { rewrite universal_newlines_app.
    - destruct Heol as [->|[->| ->]]; reflexivity.
    - apply mentions_row_body.
      eapply Forall_impl; [|exact Hsafe]. now intros f [Hf _]. }
  rewrite Htext; unfold Csv.reader.
  rewrite whole_row; auto.
  eapply Forall_impl; [|exact Hsafe]. now intros f [_ Hf].
Qed.

(* ================================================================== *)
(** ** What the reader never does *)

Lemma parse_add_char_inv : forall r c r',
  Csv.parse_add_char r c = Ok r' ->
  r' = Csv.mk_reader (Csv.state r) (Csv.field r ++ chr c) (Csv.fields r).
Proof.
  unfold Csv.parse_add_char; intros r c r'.
  destruct (_ <=? _)%N; [discriminate | now intros [= <-]].
Qed.

Lemma parse_add_char_err : forall r c e,
  Csv.parse_add_char r c = Err e -> e = Csv.FieldTooLarge.
Proof.
  unfold Csv.parse_add_char; intros r c e.
  destruct (_ <=? _)%N; [now intros [= <-] | discriminate].
Qed.

Lemma mentions_snoc : forall c s a,
  mentions c (s ++ chr a) = mentions c s || Ascii.eqb a c.
Proof. intros; rewrite mentions_app; simpl; now rewrite orb_false_r. Qed.

Lemma clean_add_char : forall r c r',
  reader_clean r -> c <> CR ->
  Csv.parse_add_char r c = Ok r' -> reader_clean r'.
Proof.
  intros r c r' [Hf Hfs] Hc H; apply parse_add_char_inv in H; subst r'.
  split; cbn [Csv.field Csv.fields]; auto.
  apply Ascii.eqb_neq in Hc; now rewrite mentions_snoc, Hf, Hc.
Qed.

Lemma clean_save_field : forall r,
  reader_clean r -> reader_clean (Csv.parse_save_field r).
Proof.
  intros r [Hf Hfs]; split; cbn; auto.
  apply Forall_app; auto.
Qed.

Lemma clean_set_state : forall st r,
  reader_clean r -> reader_clean (Csv.set_state st r).
Proof. intros st r [Hf Hfs]; split; auto. Qed.

Lemma clean_rmap_add : forall st r c r',
  reader_clean r -> c <> CR ->
  rmap (Csv.set_state st) (Csv.parse_add_char r c) = Ok r' ->
  reader_clean r'.
Proof.
  intros st r c r' Hr Hc H.
  destruct (Csv.parse_add_char r c) as [r1|e] eqn:E; [|discriminate].
  injection H as <-; apply clean_set_state; eauto using clean_add_char.
Qed.

Lemma parse_process_char_clean : forall r c r',
  reader_clean r ->
  (forall ch, c = Some ch -> ch <> CR) ->
  Csv.parse_process_char r c = Ok r' ->
  reader_clean r'.
Proof.
  intros r c r' Hr Hc.
  assert (Hch : forall ch, c = Some ch -> ch <> CR) by exact Hc.
  unfold Csv.parse_process_char, Csv.start_field.
  destruct (Csv.state r); destruct c as [ch|];
    repeat match goal with
           | |- context [if ?b then _ else _] => destruct b
           end;
    intro H;
    try (injection H as <-);
    eauto using clean_set_state, clean_save_field, clean_add_char,
                clean_rmap_add;
    discriminate.
Qed.

Lemma process_chars_clean : forall line r r',
  reader_clean r -> mentions CR line = false ->
  Csv.process_chars r line = Ok r' -> reader_clean r'.
Proof.
  induction line as [|c line IH]; simpl; intros r r' Hr Hline H.
  - now injection H as <-.
  - apply orb_false_iff in Hline; destruct Hline as [Hc Hline].
    destruct (Csv.parse_process_char r (Some c)) as [r1|e] eqn:E;
      [|discriminate].
    apply (IH r1); auto.
    apply (parse_process_char_clean r (Some c)); auto.
    intros ch [= <-]; now apply Ascii.eqb_neq.
Qed.

Lemma reader_rows_clean : forall lines r rows,
  Forall (fun l => mentions CR l = false) lines ->
  reader_clean r ->
  Csv.reader_rows r lines = Ok rows ->
  Forall (Forall (fun f => mentions CR f = false)) rows.
Proof.
  induction lines as [|line lines IH]; intros r rows Hlines Hr; simpl.
  - destruct (_ || _); intros [= <-]; auto.
    constructor; auto. apply (clean_save_field r Hr).
  - inversion Hlines as [|? ? Hline Hrest]; subst.
    destruct (Csv.process_chars r line) as [r1|e] eqn:E1; [|discriminate].
    cbn [rbind].
    destruct (Csv.parse_process_char r1 None) as [r2|e] eqn:E2;
      [|discriminate].
    cbn [rbind].
    assert (Hr2 : reader_clean r2).
    { apply (parse_process_char_clean r1 None); auto; try discriminate.
      eapply process_chars_clean; eauto. }
    destruct (Csv.is_start_record (Csv.state r2)).
    + destruct (Csv.reader_rows Csv.parse_reset lines) as [rows'|e] eqn:E3;
        [|discriminate].
      intros [= <-]; constructor; [apply Hr2|].
      apply (IH Csv.parse_reset); auto. split; simpl; auto.
    + intro H; apply (IH r2); auto.
Qed.

Lemma readlines_clean : forall s,
  mentions CR s = false ->
  Forall (fun l => mentions CR l = false) (TextIO.readlines s).
Proof.
  induction s as [|c s IH]; simpl; intro H; auto.
  apply orb_false_iff in H; destruct H as [Hc Hs].
  specialize (IH Hs).
  destruct (Ascii.eqb c LF).
  - constructor; auto. simpl; now rewrite Hc.
  - destruct (TextIO.readlines s) as [|l ls].
    + constructor; auto. simpl; now rewrite Hc.
    + inversion IH; subst; constructor; auto. simpl; now rewrite Hc.
Qed.

Lemma Forall_dict_set_kv : forall (P : key * value -> Prop) k v d,
  P (k, v) -> Forall P d -> Forall P (dict_set k v d).
Proof.
  intros P k v d Hkv; induction 1 as [|[k' v'] d Hx Hd IH]; simpl.
  - constructor; auto.
  - destruct (key_eqb k k') eqn:E; constructor; auto.
    apply key_eqb_eq in E; now subst.
Qed.

Lemma Forall_fold_dict_set : forall (P : key * value -> Prop) kvs d,
  Forall P kvs -> Forall P d ->
  Forall P (fold_left (fun d kv => dict_set (fst kv) (snd kv) d) kvs d).
Proof.
  induction kvs as [|[k v] kvs IH]; simpl; intros d Hk Hd; auto.
  inversion Hk; subst; apply IH; auto using Forall_dict_set_kv.
Qed.

Lemma Forall_zip : forall {A B} (P : A * B -> Prop) (Q : A -> Prop)
  (R : B -> Prop) xs ys,
  (forall x y, Q x -> R y -> P (x, y)) ->
  Forall Q xs -> Forall R ys -> Forall P (zip xs ys).
Proof.
  intros A B P Q R xs ys HP Hx; revert ys.
  induction Hx as [|x xs Hq Hxs IH]; intros ys Hy; simpl; auto.
  destruct Hy; constructor; auto.
Qed.

Lemma Forall_skipn : forall {A} (P : A -> Prop) n l,
  Forall P l -> Forall P (skipn n l).
Proof.
  intros A P n l H; rewrite <- (firstn_skipn n l) in H.
  now apply Forall_app in H.
Qed.

Lemma row_dict_clean : forall fieldnames row,
  Forall (fun f => mentions CR f = false) fieldnames ->
  Forall (fun f => mentions CR f = false) row ->
  Forall field_clean (Csv.row_dict fieldnames row).
Proof.
  intros fieldnames row Hh Hr; unfold Csv.row_dict.
  assert (Hd : Forall field_clean
                 (dict_of (zip (map KStr fieldnames) (map VStr row)))).
  { apply Forall_fold_dict_set; auto.
    apply (Forall_zip _ key_clean value_clean).
    - intros; split; auto.
    - apply Forall_map; exact Hh.
    - apply Forall_map; exact Hr. }
  destruct (_ <? _)%nat.
  - apply Forall_dict_set_kv; auto; split; cbn; auto.
    apply Forall_map, Forall_skipn; exact Hr.
  - assert (Hrest : Forall (fun f => mentions CR f = false)
                      (skipn (List.length row) fieldnames))
      by now apply Forall_skipn.
    revert Hd; generalize (dict_of (zip (map KStr fieldnames) (map VStr row))).
    induction Hrest as [|k ks Hk Hks IH]; simpl; intros d Hd; auto.
    apply IH, Forall_dict_set_kv; auto; split; cbn; auto.
Qed.

(** X20. Whatever the file holds, no key and no value of a record that
    [read_csv] returns contains a carriage return; every value is a
    string, [None] or a list of strings, and every key a string or
    [None]. *)
Theorem read_csv_no_carriage_return :
  forall (path : string) (w : World) (data : Dataset),
    fst (read_csv path w) = Ok data ->
    Forall (Forall field_clean) data.
Proof.
  intros path w data; unfold read_csv, bind, open_read.
  destruct (denied w path); [discriminate|].
  destruct (fs w path) as [text|]; [|discriminate].
  pose proof (universal_newlines_no_cr text) as Hclean.
  destruct (Csv.reader (TextIO.readlines (TextIO.universal_newlines text)))
    as [rows|e] eqn:E; [|discriminate].
  cbn; intros [= <-].
  apply reader_rows_clean in E;
    [| now apply readlines_clean | split; simpl; auto].
  destruct rows as [|header rows]; cbn [Csv.DictReader]; auto.
  inversion E as [|? ? Hh Hrows]; subst.
  apply Forall_map, Forall_forall; intros row Hin.
  apply filter_In in Hin; destruct Hin as [Hin _].
  rewrite Forall_forall in Hrows; apply row_dict_clean; auto.
Qed.

Lemma rmap_add_err : forall st r c e,
  rmap (Csv.set_state st) (Csv.parse_add_char r c) = Err e ->
  e = Csv.FieldTooLarge.
Proof.
  intros st r c e H.
  destruct (Csv.parse_add_char r c) eqn:E; [discriminate|].
  injection H as <-; eauto using parse_add_char_err.
Qed.

Lemma rmap_add_state : forall st r c r',
  rmap (Csv.set_state st) (Csv.parse_add_char r c) = Ok r' ->
  Csv.state r' = st.
Proof.
  intros st r c r' H.
  destruct (Csv.parse_add_char r c) eqn:E; [|discriminate].
  now injection H as <-.
Qed.

(** A character that is no line break, met outside [EAT_CRNL]. *)
Lemma parse_ordinary_char : forall r c,
  not_eating r -> Ascii.eqb c LF = false -> Ascii.eqb c CR = false ->
  match Csv.parse_process_char r (Some c) with
  | Ok r' => not_eating r'
  | Err e => e = Csv.FieldTooLarge
  end.
Proof.
  intros r c Hr Hlf Hcr.
  destruct (Csv.parse_process_char r (Some c)) as [r'|e] eqn:E;
    revert E; unfold not_eating in *;
    unfold Csv.parse_process_char, Csv.start_field, Csv.is_newline;
    rewrite Hlf, Hcr; cbn [orb];
    destruct (Csv.state r) eqn:Est; try congruence;
    repeat match goal with
           | |- context [if ?b then _ else _] => destruct b
           end;
    intro H;
    try (injection H as <-; cbn; congruence);
    try (apply rmap_add_state in H; congruence);
    try (apply parse_add_char_inv in H; subst; cbn; congruence);
    try discriminate;
    eauto using rmap_add_err, parse_add_char_err.
Qed.

(** A line feed met outside [EAT_CRNL]. *)
Lemma parse_line_feed : forall r e,
  not_eating r ->
  Csv.parse_process_char r (Some LF) = Err e -> e = Csv.FieldTooLarge.
Proof.
  intros r e Hr; unfold not_eating in Hr.
  unfold Csv.parse_process_char, Csv.start_field, Csv.is_newline.
  change (Ascii.eqb LF LF) with true; cbn [orb].
  destruct (Csv.state r) eqn:Est; try congruence;
    repeat match goal with
           | |- context [if ?b then _ else _] => destruct b
           end;
    intro H; try discriminate;
    eauto using rmap_add_err, parse_add_char_err.
Qed.

(** The end-of-line mark never fails and never leaves the reader in
    [EAT_CRNL]. *)
Lemma parse_end_of_line : forall r,
  exists r', Csv.parse_process_char r None = Ok r' /\ not_eating r'.
Proof.
  intro r; unfold Csv.parse_process_char, Csv.start_field, not_eating.
  destruct (Csv.state r) eqn:Est; eexists; split; try reflexivity;
    cbn; congruence.
Qed.

Lemma process_body : forall body r,
  not_eating r ->
  mentions LF body = false -> mentions CR body = false ->
  match Csv.process_chars r body with
  | Ok r' => not_eating r'
  | Err e => e = Csv.FieldTooLarge
  end.
Proof.
  induction body as [|c body IH]; simpl; intros r Hr Hlf Hcr; auto.
  apply orb_false_iff in Hlf, Hcr; destruct Hlf as [Hc1 Hlf], Hcr as [Hc2 Hcr].
  pose proof (parse_ordinary_char r c Hr Hc1 Hc2) as Hstep.
  destruct (Csv.parse_process_char r (Some c)) as [r1|e]; cbn [rbind];
    [now apply IH | exact Hstep].
Qed.

Lemma process_chars_app : forall a b r,
  Csv.process_chars r (a ++ b)
  = rbind (Csv.process_chars r a) (fun r' => Csv.process_chars r' b).
Proof.
  induction a as [|c a IH]; simpl; intros b r; auto.
  destruct (Csv.parse_process_char r (Some c)); cbn [rbind]; auto.
Qed.

Lemma process_line_ok : forall line r,
  not_eating r -> line_ok line ->
  match rbind (Csv.process_chars r line)
              (fun r1 => Csv.parse_process_char r1 None) with
  | Ok r' => not_eating r'
  | Err e => e = Csv.FieldTooLarge
  end.
Proof.
  intros line r Hr (body & Hlf & Hcr & [-> | ->]).
  - pose proof (process_body body r Hr Hlf Hcr) as Hb.
    destruct (Csv.process_chars r body) as [r1|e]; cbn [rbind]; auto.
    destruct (parse_end_of_line r1) as (r2 & -> & H2); auto.
  - rewrite process_chars_app.
    pose proof (process_body body r Hr Hlf Hcr) as Hb.
    destruct (Csv.process_chars r body) as [r1|e]; cbn [rbind]; auto.
    cbn [Csv.process_chars chr].
    destruct (Csv.parse_process_char r1 (Some LF)) as [r2|e] eqn:E;
      cbn [rbind Csv.process_chars].
    + destruct (parse_end_of_line r2) as (r3 & -> & H3); auto.
    + eauto using parse_line_feed.
Qed.

Lemma reader_rows_errors : forall lines r e,
  Forall line_ok lines -> not_eating r ->
  Csv.reader_rows r lines = Err e -> e = Csv.FieldTooLarge.
Proof.
  induction lines as [|line lines IH]; intros r e Hlines Hr; simpl.
  - destruct (_ || _); discriminate.
  - inversion Hlines as [|? ? Hline Hrest]; subst.
    pose proof (process_line_ok line r Hr Hline) as Hstep.
    destruct (Csv.process_chars r line) as [r1|e1]; cbn [rbind] in *;
      [|now intros [= <-]].
    destruct (Csv.parse_process_char r1 None) as [r2|e2]; cbn [rbind] in *;
      [|now intros [= <-]].
    destruct (Csv.is_start_record (Csv.state r2)).
    + destruct (Csv.reader_rows Csv.parse_reset lines) as [rows|e3] eqn:E3;
        [discriminate|].
      cbn; intros [= <-]; apply (IH Csv.parse_reset); auto; discriminate.
    + apply IH; auto.
Qed.

Lemma readlines_line_ok : forall s,
  mentions CR s = false -> Forall line_ok (TextIO.readlines s).
Proof.
  induction s as [|c s IH]; simpl; intro H; auto.
  apply orb_false_iff in H; destruct H as [Hc Hs].
  specialize (IH Hs).
  destruct (Ascii.eqb c LF) eqn:Elf.
  - constructor; auto. exists ""; repeat split; auto.
    apply Ascii.eqb_eq in Elf; subst; auto.
  - destruct (TextIO.readlines s) as [|l ls].
    + constructor; auto. exists (chr c); simpl.
      rewrite Elf, Hc; auto.
    + inversion IH as [|? ? (body & Hlf & Hcr & Hl) Hls]; subst.
      constructor; auto. exists (String c body); simpl.
      rewrite Elf, Hc, Hlf, Hcr; repeat split; auto.
      destruct Hl as [-> | ->]; auto.
Qed.

Lemma needs_quote_zeros : forall n, Csv.needs_quote (zeros n) = false.
Proof. induction n; simpl; auto. Qed.

Lemma mentions_zeros : forall n, mentions CR (zeros n) = false.
Proof. induction n; simpl; auto. Qed.

Lemma length_zeros : forall n, String.length (zeros n) = n.
Proof. induction n; simpl; auto. Qed.

Lemma overlong_field_rejected : forall n path w,
  denied w path = false ->
  fs w path = Some (String "a" (zeros n) ++ chr LF) ->
  (Csv.field_limit < N.of_nat (S n))%N ->
  fst (read_csv path w) = Err (CsvError Csv.FieldTooLarge).
Proof.
  intros n path w Hd Hf Hlong.
  unfold read_csv, bind, open_read; rewrite Hd, Hf.
  rewrite universal_newlines_clean.
  - unfold chr; rewrite field_limit_enforced; [reflexivity | |].
    + cbn [Csv.needs_quote]; rewrite needs_quote_zeros; reflexivity.
    + cbn [String.length]; rewrite length_zeros; exact Hlong.
  - rewrite mentions_app; cbn [mentions].
    rewrite mentions_zeros; reflexivity.
Qed.

Lemma lt_of_nat_succ : forall m : N, (m < N.of_nat (S (N.to_nat m)))%N.
Proof.
  intros m; rewrite Nat2N.inj_succ, N2Nat.id; apply N.lt_succ_diag_r.
Qed.

Lemma long_csv_rejected :
  fst (read_csv "long.csv" long_world) = Err (CsvError Csv.FieldTooLarge).
Proof.
  apply (overlong_field_rejected (N.to_nat Csv.field_limit)).
  - reflexivity.
  - reflexivity.
  - apply lt_of_nat_succ.
Qed.

(** X21. When the CSV parser itself rejects the text [read_csv] hands it,
    the rejection is always the field size limit. The file is read
    through universal newlines, so the parser never meets a carriage
    return, and its other error, a line break inside an unquoted field,
    cannot happen. Failures to open or to decode the file are outside this
    statement. *)
Theorem read_csv_errors :
  forall (path : string) (w : World) (ce : Csv.Error),
    fst (read_csv path w) = Err (CsvError ce) ->
    ce = Csv.FieldTooLarge.
Proof.
  intros path w ce; unfold read_csv, bind, open_read.
  destruct (denied w path); [discriminate|].
  destruct (fs w path) as [text|]; [|discriminate].
  destruct (Csv.reader (TextIO.readlines (TextIO.universal_newlines text)))
    as [rows|ce'] eqn:E; [discriminate|].
  cbn; intros [= <-].
  apply reader_rows_errors in E; auto.
  - apply readlines_line_ok, universal_newlines_no_cr.
  - discriminate.
Qed.

(* ================================================================== *)
(** ** Format detection *)

Lemma rfind_from_absent : forall c s i,
  mentions c s = false -> OsPath.rfind_from i c s = (-1)%Z.
Proof.
  induction s as [|a s IH]; simpl; intros i H; auto.
  apply orb_false_iff in H; destruct H as [Ha Hs].
  now rewrite IH, Ha.
Qed.

Lemma rfind_from_last : forall c a b i,
  (0 <= i)%Z -> mentions c b = false ->
  OsPath.rfind_from i c (a ++ String c b)
  = (i + Z.of_nat (String.length a))%Z.
Proof.
  induction a as [|x a IH]; intros b i Hi Hb.
  - cbn [append OsPath.rfind_from String.length].
    rewrite rfind_from_absent by assumption.
    cbn; rewrite Ascii.eqb_refl; lia.
  - cbn [append OsPath.rfind_from String.length].
    rewrite IH by (auto; lia).
    destruct (0 <=? i + 1 + Z.of_nat (String.length a))%Z eqn:E; [lia|].
    apply Z.leb_gt in E; lia.
Qed.

Lemma substring_prefix : forall a b,
  substring 0 (String.length a) (a ++ b) = a.
Proof.
  induction a as [|x a IH]; simpl; intro b.
  - destruct b; reflexivity.
  - now rewrite IH.
Qed.

Lemma substring_skip : forall a b m,
  substring (String.length a) m (a ++ b) = substring 0 m b.
Proof. induction a as [|x a IH]; simpl; auto. Qed.

Lemma substring_all : forall s, substring 0 (String.length s) s = s.
Proof. induction s; simpl; congruence. Qed.

Lemma splitext_parts : forall dir stem suffix,
  dir = "" \/ (exists d, dir = d ++ "/") ->
  mentions "/" stem = false ->
  mentions "/" suffix = false ->
  mentions "." suffix = false ->
  OsPath.splitext (dir ++ stem ++ "." ++ suffix)
  = if OsPath.all_dots stem
    then (dir ++ stem ++ "." ++ suffix, "")
    else (dir ++ stem, "." ++ suffix).
Proof.
  intros dir stem suffix Hdir Hstem Hsuf Hdot.
  set (p := dir ++ stem ++ "." ++ suffix).
  assert (Hsep : (OsPath.rfind "/" p + 1 = Z.of_nat (String.length dir))%Z).
  { unfold OsPath.rfind, p; destruct Hdir as [-> | [d ->]].
    - rewrite rfind_from_absent; [reflexivity|].
      cbn [append]; rewrite mentions_app, Hstem; cbn; exact Hsuf.
    - rewrite sapp_assoc; cbn [append].
      rewrite rfind_from_last; [rewrite slength_app; simpl; lia | lia |].
      rewrite mentions_app, Hstem; cbn; exact Hsuf. }
  assert (Hdotix : OsPath.rfind "." p
                   = Z.of_nat (String.length (dir ++ stem))).
  { unfold OsPath.rfind, p; rewrite <- sapp_assoc; cbn [append].
    rewrite rfind_from_last; auto; lia. }
  unfold OsPath.splitext; fold p.
  replace (OsPath.rfind "/" p) with (Z.of_nat (String.length dir) - 1)%Z
    by lia.
  rewrite Hdotix, slength_app.
  replace (Z.of_nat (String.length dir) - 1 + 1)%Z
    with (Z.of_nat (String.length dir)) by lia.
  replace (Z.of_nat (String.length dir + String.length stem)
           - Z.of_nat (String.length dir))%Z
    with (Z.of_nat (String.length stem)) by lia.
  rewrite !Nat2Z.id.
  assert (Hlt : (Z.of_nat (String.length dir) - 1
                 <? Z.of_nat (String.length dir + String.length stem))%Z
                = true) by (apply Z.ltb_lt; lia).
  rewrite Hlt; cbn [andb].
  unfold p at 1; rewrite substring_skip.
  rewrite substring_prefix.
  destruct (OsPath.all_dots stem); cbn [negb]; [reflexivity|].
  f_equal.
  - unfold p; rewrite <- sapp_assoc, <- slength_app.
    apply substring_prefix.
  - unfold p; rewrite <- sapp_assoc, <- slength_app.
    rewrite substring_skip, slength_app.
    replace (String.length (dir ++ stem) + String.length ("." ++ suffix)
             - String.length (dir ++ stem))%nat
      with (String.length ("." ++ suffix)) by lia.
    apply substring_all.
Qed.

(** X22. The extension [main] goes by. For an input path made of a
    directory part (empty, or ending in a slash), a name stem and a suffix
    after the last dot, it is the suffix in lower case with its dot;
    unless the stem is empty or all dots, when it is empty. *)
Theorem input_ext_of_name :
  forall (args : Args) (dir stem suffix : string),
    input args = dir ++ stem ++ "." ++ suffix ->
    dir = "" \/ (exists d, dir = d ++ "/") ->
    mentions "/" stem = false ->
    mentions "/" suffix = false ->
    mentions "." suffix = false ->
    input_ext args
    = if OsPath.all_dots stem then "" else "." ++ OsPath.lower suffix.
Proof.
  intros args dir stem suffix Hin Hdir Hstem Hsuf Hdot.
  unfold input_ext; rewrite Hin, splitext_parts by assumption.
  destruct (OsPath.all_dots stem); reflexivity.
Qed.

(** X23. A file whose name is only an extension, like [.csv] or
    [data/.json], has no extension for [main]: the run ends with status 1
    and the message for an unsupported input type, without opening the
    file. *)
Theorem main_rejects_bare_extension :
  forall (json_load : string -> option Dataset) (py_repr : value -> string)
         (args : Args) (w : World) (dir suffix : string),
    input args = dir ++ "." ++ suffix ->
    dir = "" \/ (exists d, dir = d ++ "/") ->
    mentions "/" suffix = false ->
    mentions "." suffix = false ->
    let run := main json_load py_repr args w in
    fst run = 1%Z
    /\ stderr (snd run) = (stderr w ++ [UnsupportedInputType ""])%list
    /\ io_log (snd run) = io_log w.
Proof.
  intros json_load py_repr args w dir suffix Hin Hdir Hsuf Hdot run.
  assert (Hext : OsPath.lower (snd (OsPath.splitext (input args))) = "").
  { rewrite Hin.
    change (dir ++ "." ++ suffix) with (dir ++ "" ++ "." ++ suffix).
    now rewrite (splitext_parts dir "" suffix Hdir eq_refl Hsuf Hdot). }
  subst run; unfold main; rewrite Hext; repeat split.
Qed.

(* ================================================================== *)
(** ** The JSON text *)

Lemma escape_char_plain : forall c,
  all_chars plain_ascii (Json.escape_char c) = true.
Proof.
  intros [[|] [|] [|] [|] [|] [|] [|] [|]]; vm_compute; reflexivity.
Qed.

Lemma encode_str_plain : forall s,
  all_chars plain_ascii (Json.encode_str s) = true.
Proof.
  intro s; unfold Json.encode_str.
  rewrite !all_chars_app; cbn [all_chars chr].
  assert (H : all_chars plain_ascii (Json.escape s) = true).
  { induction s as [|c s IH]; simpl; auto.
    now rewrite all_chars_app, escape_char_plain, IH. }
  rewrite H; reflexivity.
Qed.

Lemma spaces_plain : forall n, all_chars plain_ascii (Json.spaces n) = true.
Proof. induction n; simpl; auto. Qed.

Lemma newline_indent_plain : forall n,
  all_chars plain_ascii (Json.newline_indent n) = true.
Proof. intro n; unfold Json.newline_indent; simpl; apply spaces_plain. Qed.

Lemma uint_plain : forall d,
  all_chars plain_ascii (NilEmpty.string_of_uint d) = true.
Proof. induction d; simpl; auto. Qed.

Lemma str_of_int_plain : forall z,
  all_chars plain_ascii (str_of_int z) = true.
Proof.
  intro z; unfold str_of_int, NilZero.string_of_int, NilZero.string_of_uint.
  destruct (Z.to_int z) as [d|d]; destruct d; simpl; auto using uint_plain.
Qed.

Lemma join_plain : forall sep parts,
  all_chars plain_ascii sep = true ->
  Forall (fun s => all_chars plain_ascii s = true) parts ->
  all_chars plain_ascii (join sep parts) = true.
Proof.
  intros sep parts Hsep; induction 1 as [|s parts Hs Hparts IH]; auto.
  destruct parts as [|t parts]; [exact Hs|].
  change (join sep (s :: t :: parts)) with (s ++ sep ++ join sep (t :: parts)).
  now rewrite !all_chars_app, Hs, Hsep, IH.
Qed.

Lemma in_list_sum : forall n l, In n l -> (n <= list_sum l)%nat.
Proof.
  induction l as [|m l IH]; simpl; [tauto|].
  intros [->|H]; [lia | apply IH in H; lia].
Qed.

Section PlainJson.

Variable py_repr : value -> string.
Hypothesis py_repr_plain :
  forall f, all_chars plain_ascii (py_repr (VFloat f)) = true.

Lemma floatstr_plain : forall f,
  all_chars plain_ascii (Json.floatstr py_repr f) = true.
Proof. intros [s|[|]| |s m e]; simpl; auto. Qed.

Lemma encode_plain : forall n v level,
  (value_size v <= n)%nat ->
  all_chars plain_ascii (Json.encode py_repr level v) = true.
Proof.
  induction n as [|n IH]; intros v level Hsize.
  - destruct v; simpl in Hsize; lia.
  - destruct v as [|[|]|z|f|s|l|d]; cbn [Json.encode];
      auto using str_of_int_plain, floatstr_plain, encode_str_plain.
    + destruct l as [|x l]; [reflexivity|].
      rewrite !all_chars_app, !newline_indent_plain; cbn [all_chars andb].
      rewrite join_plain; auto.
      * cbn [append all_chars]; apply newline_indent_plain.
      * apply Forall_map, Forall_forall; intros y Hy.
        apply IH; cbn [value_size] in Hsize.
        apply (in_map value_size) in Hy; apply in_list_sum in Hy; lia.
    + destruct d as [|x d]; [reflexivity|].
      rewrite !all_chars_app, !newline_indent_plain; cbn [all_chars andb].
      rewrite join_plain; auto.
      * cbn [append all_chars]; apply newline_indent_plain.
      * apply Forall_map, Forall_forall; intros y Hy.
        rewrite !all_chars_app, encode_str_plain; cbn [all_chars andb].
        apply IH; cbn [value_size] in Hsize.
        apply (in_map (fun kv => value_size (snd kv))) in Hy.
        apply in_list_sum in Hy; lia.
Qed.

End PlainJson.

(** X24. What [write_json] leaves in the file is plain ASCII, whatever
    the keys and strings of the data: every character is a printable ASCII
    character or a line feed, given that the repr of a float is. *)
Theorem write_json_ascii :
  forall (py_repr : value -> string) (data : Dataset) (path : string)
         (w : World),
    (forall f, all_chars plain_ascii (py_repr (VFloat f)) = true) ->
    denied w path = false ->
    exists text,
      fs (snd (write_json py_repr data path w)) path = Some text
      /\ all_chars plain_ascii text = true.
Proof.
  intros py_repr data path w Hrepr Hd.
  exists (Json.dumps py_repr data); split.
  - unfold write_json, bind, open_write, write; rewrite Hd.
    cbn [snd fs store]; now rewrite String.eqb_refl.
  - unfold Json.dumps.
    now apply (encode_plain py_repr Hrepr
                 (value_size (VList (map VDict data)))).
Qed.

(* ================================================================== *)
(** ** The properties above on sample inputs *)

Lemma write_csv_header_from_first_witness :
  denied (sample_world []) "out.csv" = false
  /\ forallb (in_fieldnames [KStr "a"; KStr "b"]) sparse = true
  /\ fst (write_csv sample_repr sparse "out.csv" (sample_world [])) = Ok tt
  /\ fs (snd (write_csv sample_repr sparse "out.csv" (sample_world [])))
        "out.csv"
     = Some ("a,b" ++ crlf ++ "1,2" ++ crlf ++ "3," ++ crlf)
  /\ denied uneven_world "out.csv" = false
  /\ in_fieldnames [KStr "name"]
       [(KStr "name", VStr "Bob"); (KStr "age", VStr "30");
        (KStr "city", VStr "LA")] = false
  /\ fst (write_csv sample_repr (map filter_empty uneven_rows) "out.csv"
            uneven_world)
     = Err (ValueError [KStr "city"; KStr "age"])
  /\ (let whole := main sample_json_load sample_repr
                     (mk_args "data.csv" "out.csv" true false)
                     uneven_world in
      fst whole = 1%Z
      /\ stderr (snd whole)
         = [WriteFailed (ValueError [KStr "city"; KStr "age"])]
      /\ fs (snd whole) "out.csv"
         = Some ("name" ++ crlf ++ "Alice" ++ crlf)).
Proof.
  split; [reflexivity|]; split; [reflexivity|].
  destruct (write_csv_header_from_first sample_repr
              [(KStr "a", VStr "1"); (KStr "b", VStr "2")]
              [[(KStr "a", VStr "3")]] "out.csv" (sample_world []) eq_refl)
    as [Hok _].
  destruct (Hok eq_refl) as [Hres Hfile].
  split; [exact Hres|]; split; [exact Hfile|].
  split; [reflexivity|]; split; [reflexivity|].
  destruct (write_csv_header_from_first sample_repr
              [(KStr "name", VStr "Alice")]
              [[(KStr "name", VStr "Bob"); (KStr "age", VStr "30");
                (KStr "city", VStr "LA")]] "out.csv" uneven_world eq_refl)
    as [_ Hstop].
  destruct (Hstop [[(KStr "name", VStr "Alice")]]
              [(KStr "name", VStr "Bob"); (KStr "age", VStr "30");
               (KStr "city", VStr "LA")] [] eq_refl eq_refl eq_refl)
    as (Herr & _ & _ & Hmain).
  split; [exact Herr|].
  apply (Hmain sample_json_load (mk_args "data.csv" "out.csv" true false)
           uneven_world uneven_rows).
  - left; split; reflexivity.
  - reflexivity.
  - reflexivity.
  - reflexivity.
Defined.

(** C2, as the specification words it, fails: a later record with a key
    the first record lacks makes [write_csv] raise; [main] reports it and
    exits with status 1. The specification's own scenario, sent to a CSV
    file instead of a JSON file, is such a dataset. *)
Lemma write_csv_rejects_extra_key :
  fst (write_csv sample_repr ragged "out.csv" (sample_world []))
  = Err (ValueError [KStr "b"])
  /\ fs (snd (write_csv sample_repr ragged "out.csv" (sample_world [])))
        "out.csv"
     = Some ("a" ++ crlf ++ "1" ++ crlf)
  /\ (let run := main sample_json_load sample_repr
                   (mk_args "data.csv" "out.csv" true false)
                   (sample_world [("data.csv", scenario_csv)]) in
      fst run = 1%Z
      /\ stderr (snd run) = [WriteFailed (ValueError [KStr "age"])]
      /\ fs (snd run) "out.csv"
         = Some ("name,city" ++ crlf ++ "Alice,NYC" ++ crlf)).
Proof. repeat split. Qed.

Lemma add_timestamp_uniform_witness :
  str_in "add_timestamp" ["filter_empty"; "add_timestamp"] = true
  /\ clock_reads
       (snd (process_data (mixed :: scenario_rows)
               ["filter_empty"; "add_timestamp"] stamped_world)) = 2
  /\ read_iso "2024-05-17T09:30:01" = Some (mk_datetime 2024 5 17 9 30 1 0)
  /\ List.length
       (fst (process_data (mixed :: scenario_rows)
               ["filter_empty"; "add_timestamp"] stamped_world)) = 3
  /\ Forall (fun item =>
               dict_get (KStr "timestamp") item
               = Some (VStr "2024-05-17T09:30:01"))
            (fst (process_data (mixed :: scenario_rows)
                    ["filter_empty"; "add_timestamp"] stamped_world))
  /\ Forall2
       (fun item out =>
          (forall k, k <> timestamp_key -> dict_get k out = dict_get k item)
          /\ keys out
             = if existsb (key_eqb timestamp_key) (keys item) then keys item
               else (keys item ++ [timestamp_key])%list)
       [ [(KStr "b", VInt 7); (KStr "e", VStr "x");
          (KStr "timestamp", VStr "old")];
         [(KStr "name", VStr "Alice"); (KStr "city", VStr "NYC")];
         [(KStr "name", VStr "Bob"); (KStr "age", VStr "30")] ]
       (fst (process_data (mixed :: scenario_rows)
               ["filter_empty"; "add_timestamp"] stamped_world)).
Proof.
  split; [reflexivity|].
  apply (add_timestamp_uniform (mixed :: scenario_rows)
           ["filter_empty"; "add_timestamp"] stamped_world).
  reflexivity.
Defined.

Example stamped_records :
  fst (process_data (mixed :: scenario_rows)
         ["filter_empty"; "add_timestamp"] stamped_world)
  = [ [(KStr "b", VInt 7); (KStr "e", VStr "x");
       (KStr "timestamp", VStr "2024-05-17T09:30:01")];
      [(KStr "name", VStr "Alice"); (KStr "city", VStr "NYC");
       (KStr "timestamp", VStr "2024-05-17T09:30:01")];
      [(KStr "name", VStr "Bob"); (KStr "age", VStr "30");
       (KStr "timestamp", VStr "2024-05-17T09:30:01")] ].
Proof. reflexivity. Qed.

Lemma main_changes_only_output_witness :
  "data.csv" <> "out.json"
  /\ same_file scenario_world "data.csv" "out.json" = false
  /\ fs (snd (main sample_json_load sample_repr
                (mk_args "data.csv" "out.json" true true) scenario_world))
        "data.csv"
     = Some scenario_csv.
Proof.
  split; [discriminate|]; split; [reflexivity|].
  apply (main_changes_only_output sample_json_load sample_repr
           (mk_args "data.csv" "out.json" true true) scenario_world
           "data.csv");
    [discriminate | reflexivity].
Defined.

(** With an output path that is another spelling of the input file, the
    run overwrites its input. *)
Example output_spelled_like_input :
  fs (snd (main sample_json_load sample_repr
             (mk_args "data.csv" "./data.csv" true false) respelled_world))
     "data.csv"
  = Some ("name,city" ++ crlf ++ "Alice,NYC" ++ crlf).
Proof. reflexivity. Qed.

Lemma main_missing_input_witness :
  fs scenario_world "missing.csv" = None
  /\ fst (main sample_json_load sample_repr
            (mk_args "missing.csv" "out.json" false false) scenario_world)
     = 1%Z.
Proof.
  split; [reflexivity|].
  apply (main_missing_input sample_json_load sample_repr
           (mk_args "missing.csv" "out.json" false false) scenario_world);
    auto.
Defined.

Lemma scenario_reads : forall o f t,
  input_reads sample_json_load (mk_args "data.csv" o f t) scenario_world
              scenario_rows.
Proof. intros; left; split; reflexivity. Qed.

Lemma main_unsupported_output_witness :
  output_ext (mk_args "data.csv" "out.txt" false true) <> ".csv"
  /\ output_ext (mk_args "data.csv" "out.txt" false true) <> ".json"
  /\ fs (snd (main sample_json_load sample_repr
                (mk_args "data.csv" "out.txt" false true) scenario_world))
     = fs scenario_world.
Proof.
  split; [discriminate|]; split; [discriminate|].
  apply (main_unsupported_output sample_json_load sample_repr
           (mk_args "data.csv" "out.txt" false true) scenario_world
           scenario_rows);
    [apply scenario_reads | discriminate | discriminate].
Defined.

Lemma main_empty_to_csv_witness :
  input_reads sample_json_load (mk_args "empty.json" "out.csv" true true)
              scenario_world []
  /\ fst (main sample_json_load sample_repr
            (mk_args "empty.json" "out.csv" true true) scenario_world)
     = 0%Z
  /\ fs (snd (main sample_json_load sample_repr
                (mk_args "empty.json" "out.csv" true true) scenario_world))
     = fs scenario_world.
Proof.
  assert (H : input_reads sample_json_load
                (mk_args "empty.json" "out.csv" true true) scenario_world [])
    by (right; split; reflexivity).
  split; [exact H|].
  destruct (main_empty_to_csv sample_json_load sample_repr
              (mk_args "empty.json" "out.csv" true true) scenario_world
              H eq_refl) as (H0 & Hfs & _).
  split; assumption.
Defined.

Lemma main_to_json_witness :
  denied scenario_world "out.json" = false
  /\ fs (snd (main sample_json_load sample_repr
                (mk_args "data.csv" "out.json" false false) scenario_world))
        "out.json"
     = Some (Json.dumps sample_repr scenario_rows).
Proof.
  split; [reflexivity|].
  apply (main_to_json sample_json_load sample_repr
           (mk_args "data.csv" "out.json" false false) scenario_world
           scenario_rows);
    [apply scenario_reads | reflexivity | reflexivity].
Defined.

Lemma main_to_csv_witness :
  denied scenario_world "out.csv" = false
  /\ fs (snd (main sample_json_load sample_repr
                (mk_args "data.csv" "out.csv" false false) scenario_world))
        "out.csv"
     = Some ("name,age,city" ++ crlf ++ "Alice,,NYC" ++ crlf
             ++ "Bob,30," ++ crlf).
Proof.
  split; [reflexivity|].
  apply (main_to_csv sample_json_load sample_repr
           (mk_args "data.csv" "out.csv" false false) scenario_world
           scenario_rows
           [(KStr "name", VStr "Alice"); (KStr "age", VStr "");
            (KStr "city", VStr "NYC")]
           [[(KStr "name", VStr "Bob"); (KStr "age", VStr "30");
             (KStr "city", VStr "")]]);
    [apply scenario_reads | reflexivity | reflexivity | reflexivity
    | reflexivity].
Defined.

Lemma mixed_wf : Forall dict_wf [mixed].
Proof.
  repeat constructor; simpl; intuition discriminate.
Qed.

Lemma filter_empty_lookup_witness :
  Forall dict_wf [mixed]
  /\ Forall2 (fun item out =>
                forall k, dict_get k out
                          = match dict_get k item with
                            | Some v => if truthy v then Some v else None
                            | None => None
                            end)
             [mixed]
             [[(KStr "b", VInt 7); (KStr "e", VStr "x");
               (KStr "timestamp", VStr "old")]].
Proof.
  split; [exact mixed_wf|].
  apply (filter_empty_lookup [mixed] ["filter_empty"] (sample_world [])
           mixed_wf eq_refl eq_refl).
Defined.

Lemma process_data_keeps_wf_witness :
  Forall dict_wf [mixed]
  /\ Forall dict_wf
       (fst (process_data [mixed] ["filter_empty"; "add_timestamp"]
               (sample_world []))).
Proof.
  split; [exact mixed_wf|].
  apply (process_data_keeps_wf [mixed] ["filter_empty"; "add_timestamp"]
           (sample_world []) mixed_wf).
Defined.

Lemma add_timestamp_keeps_fields_witness :
  str_in "filter_empty" ["add_timestamp"] = false
  /\ str_in "add_timestamp" ["add_timestamp"] = true
  /\ map keys (fst (process_data (mixed :: scenario_rows) ["add_timestamp"]
                      (sample_world [])))
     = [keys mixed;
        [KStr "name"; KStr "age"; KStr "city"; timestamp_key];
        [KStr "name"; KStr "age"; KStr "city"; timestamp_key]].
Proof.
  split; [reflexivity|]; split; [reflexivity|].
  pose proof (add_timestamp_keeps_fields (mixed :: scenario_rows)
                ["add_timestamp"] (sample_world []) eq_refl eq_refl) as H.
  inversion H as [|? ? ? ? [_ H1] H']; subst.
  inversion H' as [|? ? ? ? [_ H2] H'']; subst.
  inversion H'' as [|? ? ? ? [_ H3] _]; subst.
  reflexivity.
Defined.

Lemma timestamp_survives_filter_witness :
  Forall dict_wf [mixed]
  /\ Forall (fun item =>
               dict_get timestamp_key item
               = Some (VStr "2024-05-17T09:30:00"))
            (fst (process_data
                    (fst (process_data [mixed] ["add_timestamp"]
                            (sample_world [])))
                    ["filter_empty"]
                    (snd (process_data [mixed] ["add_timestamp"]
                            (sample_world []))))).
Proof.
  split; [exact mixed_wf|].
  apply (timestamp_survives_filter [mixed] (sample_world []) mixed_wf).
Defined.

Lemma three_names : NoDup ["name"; "age"; "city"].
Proof. repeat constructor; simpl; intuition discriminate. Qed.

Lemma DictReader_records_witness :
  NoDup ["name"; "age"; "city"]
  /\ Csv.DictReader [["name"; "age"; "city"]; ["Alice"]; [];
                     ["Bob"; "30"; "LA"; "x"; "y"]]
     = [ [(KStr "name", VStr "Alice"); (KStr "age", VNone);
          (KStr "city", VNone)];
         [(KStr "name", VStr "Bob"); (KStr "age", VStr "30");
          (KStr "city", VStr "LA"); (KNone, VList [VStr "x"; VStr "y"])] ].
Proof.
  split; [exact three_names|].
  apply (DictReader_records ["name"; "age"; "city"]
           [["Alice"]; []; ["Bob"; "30"; "LA"; "x"; "y"]] three_names).
Defined.

Lemma short_row_filtered_witness :
  NoDup ["name"; "age"; "city"]
  /\ (2 <= 3)%nat
  /\ filter_empty (Csv.row_dict ["name"; "age"; "city"] ["Alice"; ""])
     = [(KStr "name", VStr "Alice")].
Proof.
  split; [exact three_names|]; split; [lia|].
  apply (short_row_filtered ["name"; "age"; "city"] ["Alice"; ""]
           three_names); simpl; lia.
Defined.

Lemma name_age_safe : safe_row ["name"; "age"].
Proof.
  split; [discriminate|].
  repeat constructor; try reflexivity; unfold Csv.field_limit; simpl; lia.
Qed.

Lemma read_csv_header_only_witness :
  denied (sample_world [("h.csv", "name,age" ++ crlf)]) "h.csv" = false
  /\ safe_row ["name"; "age"]
  /\ fst (read_csv "h.csv" (sample_world [("h.csv", "name,age" ++ crlf)]))
     = Ok [].
Proof.
  split; [reflexivity|]; split; [exact name_age_safe|].
  apply (read_csv_header_only "h.csv"
           (sample_world [("h.csv", "name,age" ++ crlf)])
           ["name"; "age"] crlf eq_refl name_age_safe);
    [right; right; reflexivity | left; reflexivity].
Defined.

Lemma read_csv_no_carriage_return_witness :
  fst (read_csv "cr.csv" (sample_world [("cr.csv", cr_csv)]))
  = Ok [[(KStr "a", VStr ("x" ++ nl ++ "y"))]]
  /\ Forall (Forall field_clean) [[(KStr "a", VStr ("x" ++ nl ++ "y"))]].
Proof.
  split; [reflexivity|].
  apply (read_csv_no_carriage_return "cr.csv"
           (sample_world [("cr.csv", cr_csv)])).
  reflexivity.
Defined.

Lemma read_csv_errors_witness :
  fst (read_csv "long.csv" long_world) = Err (CsvError Csv.FieldTooLarge)
  /\ Csv.FieldTooLarge = Csv.FieldTooLarge.
Proof.
  split; [exact long_csv_rejected|].
  apply (read_csv_errors "long.csv" long_world Csv.FieldTooLarge).
  exact long_csv_rejected.
Defined.

Lemma input_ext_of_name_witness :
  input (mk_args "in/Report.CSV" "out.json" false false)
  = "in/" ++ "Report" ++ "." ++ "CSV"
  /\ input_ext (mk_args "in/Report.CSV" "out.json" false false) = ".csv".
Proof.
  split; [reflexivity|].
  apply (input_ext_of_name (mk_args "in/Report.CSV" "out.json" false false)
           "in/" "Report" "CSV");
    try reflexivity.
  right; exists "in"; reflexivity.
Defined.

Lemma main_rejects_bare_extension_witness :
  input (mk_args "in/.csv" "out.json" false false) = "in/" ++ "." ++ "csv"
  /\ fst (main sample_json_load sample_repr
            (mk_args "in/.csv" "out.json" false false) scenario_world)
     = 1%Z.
Proof.
  split; [reflexivity|].
  apply (main_rejects_bare_extension sample_json_load sample_repr
           (mk_args "in/.csv" "out.json" false false) scenario_world
           "in/" "csv");
    try reflexivity.
  right; exists "in"; reflexivity.
Defined.

Lemma write_json_ascii_witness :
  (forall f, all_chars plain_ascii (sample_repr (VFloat f)) = true)
  /\ denied scenario_world "out.json" = false
  /\ exists text,
       fs (snd (write_json sample_repr scenario_records "out.json"
                  scenario_world)) "out.json"
       = Some text
       /\ all_chars plain_ascii text = true.
Proof.
  split; [intro f; reflexivity|]; split; [reflexivity|].
  apply (write_json_ascii sample_repr scenario_records "out.json"
           scenario_world);
    [intro f; reflexivity | reflexivity].
Defined.
